(** * Maximum path sum in a number triangle (Project Euler 18)

    A shallow embedding of [src/main.py]: the dynamic-programming trellis
    builder [compute_trellis] and the backward walk [compute_best_path],
    together with the properties the specification states about them.

    Python integers are modelled as [Z], Python lists as [list], the
    trellis cells (2-tuples of ints) as pairs [Z * Z].  Indexing follows
    Python: a negative index counts from the end of the list and an index
    outside the list raises [IndexError]. *)

From Stdlib Require Import ZArith List Lia Bool Ascii String.
From stdpp Require Import base list.

Local Open Scope Z_scope.

(** ** Exceptions and results *)

(** [IndexError] and [ValueError] are the two built-in exceptions the
    operations used by the program can raise (list indexing, [max] of an
    empty sequence).  [ShapeError] and [EmptyTriangleError] are the names
    used by the specification; no definition below constructs them. *)
Inductive exn : Set :=
| IndexError
| ValueError
| ShapeError
| EmptyTriangleError.

Inductive result (A : Type) : Type :=
| Ok (a : A)
| Raise (e : exn).

Arguments Ok {A} a.
Arguments Raise {A} e.

Definition bind {A B : Type} (m : result A) (k : A -> result B) : result B :=
  match m with
  | Ok a => k a
  | Raise e => Raise e
  end.

Notation "x <- m ;; k" := (bind m (fun x => k))
  (at level 100, m at next level, right associativity).

(** ** Python list primitives *)

Module Py.

(** Position designated by index [k] in a list of length [n]: negative
    indices count from the end; [None] when out of range. *)
Definition norm_index (n : nat) (k : Z) : option nat :=
  let k' := if k <? 0 then k + Z.of_nat n else k in
  if (0 <=? k') && (k' <? Z.of_nat n) then Some (Z.to_nat k') else None.

(** [l[k]] *)
Definition getitem {A : Type} (l : list A) (k : Z) : result A :=
  match norm_index (length l) k with
  | Some i =>
      match l !! i with
      | Some x => Ok x
      | None => Raise IndexError
      end
  | None => Raise IndexError
  end.

(** [l[k] = x] *)
Definition setitem {A : Type} (l : list A) (k : Z) (x : A) : result (list A) :=
  match norm_index (length l) k with
  | Some i => Ok (<[i:=x]> l)
  | None => Raise IndexError
  end.

(** [m[i][j]] *)
Definition getitem2 {A : Type} (m : list (list A)) (i j : Z) : result A :=
  row <- getitem m i ;; getitem row j.

(** [m[i][j] = x]: the row object [m[i]] is updated in place. *)
Definition setitem2 {A : Type} (m : list (list A)) (i j : Z) (x : A)
  : result (list (list A)) :=
  row <- getitem m i ;;
  row' <- setitem row j x ;;
  setitem m i row'.

(** [range(a, b)] *)
Definition range (a b : Z) : list Z :=
  map (fun k => a + Z.of_nat k) (seq 0 (Z.to_nat (b - a))).

(** [for k in ks: s = body(k, s)] over a state [s]. *)
Fixpoint for_each {S : Type} (ks : list Z) (body : Z -> S -> result S) (s : S)
  : result S :=
  match ks with
  | [] => Ok s
  | k :: ks' => s' <- body k s ;; for_each ks' body s'
  end.

(** [enumerate(l)] *)
Definition enumerate {A : Type} (l : list A) : list (Z * A) :=
  imap (fun i x => (Z.of_nat i, x)) l.

(** [max(l, key=key)]: the key of every item is computed once, in order;
    an item replaces the current maximum only when its key is strictly
    greater, so the first item with the largest key is returned.  An empty
    sequence raises [ValueError]. *)
Fixpoint max_from {A K : Type} (gt : K -> K -> bool) (key : A -> result K)
    (best : A) (kbest : K) (l : list A) : result A :=
  match l with
  | [] => Ok best
  | x :: l' =>
      kx <- key x ;;
      if gt kx kbest then max_from gt key x kx l'
      else max_from gt key best kbest l'
  end.

Definition max_key {A K : Type} (gt : K -> K -> bool) (key : A -> result K)
    (l : list A) : result A :=
  match l with
  | [] => Raise ValueError
  | x :: l' => kx <- key x ;; max_from gt key x kx l'
  end.

(** [x > y] on 2-tuples of ints: lexicographic. *)
Definition tuple_gt (x y : Z * Z) : bool :=
  if fst x =? fst y then snd x >? snd y else fst x >? fst y.

End Py.

(** ** The program *)

Abbreviation cell := (Z * Z)%type.
Abbreviation Triangle := (list (list Z)).
Abbreviation Trellis := (list (list cell)).

(** Body of the inner loop of [compute_trellis], for inner column [j] of
    row [i]. *)
Definition fill_inner (triangle : Triangle) (i j : Z) (trellis : Trellis)
  : result Trellis :=
  best_s <- Py.max_key Py.tuple_gt
              (fun s => Py.getitem2 trellis (i - 1) (j + s)) [-1; 0] ;;
  this_elt <- Py.getitem2 triangle i j ;;
  parent <- Py.getitem2 trellis (i - 1) (j + best_s) ;;
  Py.setitem2 trellis i j (fst parent + this_elt, best_s).

(** Body of the outer loop of [compute_trellis], for row [i]. *)
Definition fill_row (triangle : Triangle) (i : Z) (trellis : Trellis)
  : result Trellis :=
  up <- Py.getitem2 trellis (i - 1) 0 ;;
  elt <- Py.getitem2 triangle i 0 ;;
  trellis <- Py.setitem2 trellis i 0 (fst up + elt, 0) ;;
  up <- Py.getitem2 trellis (i - 1) (-1) ;;
  elt <- Py.getitem2 triangle i (-1) ;;
  trellis <- Py.setitem2 trellis i (-1) (fst up + elt, -1) ;;
  row <- Py.getitem trellis i ;;
  Py.for_each (Py.range 1 (Z.of_nat (length row) - 1))
    (fill_inner triangle i) trellis.

Definition compute_trellis (triangle : Triangle) : result Trellis :=
  let trellis := map (fun line => map (fun _ => (0, 0)) line) triangle in
  apex <- Py.getitem2 triangle 0 0 ;;
  trellis <- Py.setitem2 trellis 0 0 (apex, 1) ;;
  Py.for_each (Py.range 1 (Z.of_nat (length trellis)))
    (fill_row triangle) trellis.

(** Variables of the backward walk of [compute_best_path]. *)
Record walk_state : Type := WalkState {
  curr_i : Z;
  curr_j : Z;
  best_path : list Z
}.

(** Body of the [while] loop. *)
Definition walk_body (triangle : Triangle) (trellis : Trellis)
    (st : walk_state) : result walk_state :=
  elt <- Py.getitem2 triangle (curr_i st) (curr_j st) ;;
  c <- Py.getitem2 trellis (curr_i st) (curr_j st) ;;
  let step_j := snd c in
  Ok {| curr_i := curr_i st - 1;
        curr_j := curr_j st + step_j;
        best_path := best_path st ++ [elt] |}.

Fixpoint iterate (n : nat) (body : walk_state -> result walk_state)
    (st : walk_state) : result walk_state :=
  match n with
  | O => Ok st
  | S n' => st' <- body st ;; iterate n' body st'
  end.

(** [while curr_i >= 0: body].  The body decreases [curr_i] by one, so the
    loop runs [curr_i + 1] times (not at all when [curr_i < 0]);
    [walk_while_unfold] below shows that this satisfies the equation of
    the loop. *)
Definition walk_while (triangle : Triangle) (trellis : Trellis)
    (st : walk_state) : result walk_state :=
  iterate (Z.to_nat (curr_i st + 1)) (walk_body triangle trellis) st.

(** [max(enumerate(trellis[-1]), key=lambda x: x[1][0])] *)
Definition find_endpoint (trellis : Trellis) : result (Z * cell) :=
  last_row <- Py.getitem trellis (-1) ;;
  Py.max_key Z.gtb (fun x => Ok (fst (snd x))) (Py.enumerate last_row).

Definition compute_best_path (triangle : Triangle) (trellis : Trellis)
  : result (Z * list Z) :=
  endpoint <- find_endpoint trellis ;;
  let j := fst endpoint in
  let best_sum := fst (snd endpoint) in
  let i := Z.of_nat (length trellis) - 1 in
  st <- walk_while triangle trellis
          {| curr_i := i; curr_j := j; best_path := [] |} ;;
  Ok (best_sum, rev (best_path st)).

(** [walk_reaches triangle trellis st st']: the loop started in state [st]
    is in state [st'] at the start of one of its iterations or at its
    exit. *)
Inductive walk_reaches (triangle : Triangle) (trellis : Trellis)
  : walk_state -> walk_state -> Prop :=
| reach_here st : walk_reaches triangle trellis st st
| reach_next st st' st'' :
    curr_i st >= 0 ->
    walk_body triangle trellis st = Ok st' ->
    walk_reaches triangle trellis st' st'' ->
    walk_reaches triangle trellis st st''.

(** [main] after the triangle has been read from its file. *)
Definition main (triangle : Triangle) : result (Z * list Z) :=
  trellis <- compute_trellis triangle ;;
  compute_best_path triangle trellis.

(** ** Well-formed triangles, cells and paths *)

(** Row [k], [k+1], ... of a triangle have [k+1], [k+2], ... entries. *)
Fixpoint rows_from (k : nat) (rows : list (list Z)) : bool :=
  match rows with
  | [] => true
  | row :: rows' => (length row =? S k)%nat && rows_from (S k) rows'
  end.

(** A non-empty triangle whose row [i] has exactly [i+1] entries. *)
Definition well_formed (triangle : Triangle) : bool :=
  match triangle with
  | [] => false
  | _ => rows_from 0 triangle
  end.

(** Entry [(i, j)] of a ragged table, without wrap-around. *)
Definition at2 {A : Type} (m : list (list A)) (i j : nat) : option A :=
  match m !! i with
  | Some row => row !! j
  | None => None
  end.

Definition sumZ (l : list Z) : Z := foldr Z.add 0 l.

(** [path_to i j cols]: [cols] lists the columns of a path that starts at
    the apex [(0, 0)], descends one row at a time, the column staying the
    same or growing by one, and ends at [(i, j)]; [path_to_iff] below
    restates it by positions in [cols]. *)
Inductive path_to : nat -> nat -> list nat -> Prop :=
| path_apex : path_to 0 0 [0%nat]
| path_step i j j' cols :
    path_to i j cols ->
    j' = j \/ j' = S j ->
    path_to (S i) j' (cols ++ [j']).

(** The triangle values along the columns [cols], taken from rows
    [0, 1, ...] in order; [None] when some cell is missing. *)
Fixpoint path_values (rows : list (list Z)) (cols : list nat) {struct cols}
  : option (list Z) :=
  match cols with
  | [] => Some []
  | c :: cols' =>
      match rows with
      | [] => None
      | row :: rows' =>
          match row !! c, path_values rows' cols' with
          | Some v, Some vs => Some (v :: vs)
          | _, _ => None
          end
      end
  end.

(** ** What the builder stores in each cell *)

(** Parent chosen by [max([-1, 0], key=...)] between the left candidate [l]
    and the right candidate [r], and the offset that designates it. *)
Definition best_parent (l r : cell) : cell :=
  if Py.tuple_gt r l then r else l.

Definition best_offset (l r : cell) : Z :=
  if Py.tuple_gt r l then 0 else -1.

(** Cell [c] at column [j] of row [i >= 1], above triangle value [v], given
    the finished trellis row [prev] above it. *)
Definition cell_rel (prev : list cell) (i j : nat) (v : Z) (c : cell) : Prop :=
  if decide (j = 0%nat) then
    exists p, prev !! 0%nat = Some p /\ c = (fst p + v, 0)
  else if decide (j = i) then
    exists p, prev !! (i - 1)%nat = Some p /\ c = (fst p + v, -1)
  else
    exists l r, prev !! (j - 1)%nat = Some l /\ prev !! j = Some r /\
      c = (fst (best_parent l r) + v, best_offset l r).

(** State of the trellis once rows [0 .. k-1] are filled; [d] is the second
    component stored in the apex cell. *)
Definition trellis_upto (triangle : Triangle) (d : Z) (k : nat)
    (trellis : Trellis) : Prop :=
  length trellis = length triangle /\
  (forall (i : nat) row, trellis !! i = Some row -> length row = S i) /\
  (exists v, at2 triangle 0 0 = Some v /\ trellis !! 0%nat = Some [(v, d)]) /\
  (forall (i : nat) prev row line,
      (S i < k)%nat ->
      trellis !! i = Some prev -> trellis !! S i = Some row ->
      triangle !! S i = Some line ->
      forall (j : nat) v c, line !! j = Some v -> row !! j = Some c ->
        cell_rel prev (S i) j v c).

Definition trellis_ok (triangle : Triangle) (d : Z) (trellis : Trellis)
  : Prop :=
  trellis_upto triangle d (length triangle) trellis.

(** ** Optimal sums *)

(** [b] is the largest sum of triangle values along a path from the apex
    to [(i, j)]: some path attains it, and every path has a sum, which is at
    most [b]. *)
Definition is_max_path_sum (triangle : Triangle) (i j : nat) (b : Z) : Prop :=
  (exists cols vals,
      path_to i j cols /\ path_values triangle cols = Some vals /\
      sumZ vals = b) /\
  (forall cols,
      path_to i j cols ->
      exists vals, path_values triangle cols = Some vals /\ sumZ vals <= b).

(** ** Shapes and exceptions *)

(** Row lengths of a ragged table. *)
Definition shape {A : Type} (m : list (list A)) : list nat := length <$> m.

Definition raises_only_IndexError {A : Type} (r : result A) : Prop :=
  forall e, r = Raise e -> e = IndexError.

(** Rows the builder can fill: none is empty and none is more than one
    entry longer than the row above it, which has [prev] entries. *)
Fixpoint rows_fit (prev : nat) (rows : list (list Z)) : bool :=
  match rows with
  | [] => true
  | row :: rows' =>
      (1 <=? length row)%nat && (length row <=? S prev)%nat
      && rows_fit (length row) rows'
  end.

(** A triangle with at least one row, no empty row and no row more than
    one entry longer than the row above it. *)
Definition fillable (triangle : Triangle) : bool :=
  match triangle with
  | [] => false
  | row :: rows => (1 <=? length row)%nat && rows_fit (length row) rows
  end.

(** ** States of the walk *)

(** At the start of an iteration the walk stands on a cell of the
    trellis. *)
Definition on_cell (trellis : Trellis) (st : walk_state) : Prop :=
  curr_i st >= 0 ->
  exists (i j : nat) c,
    curr_i st = Z.of_nat i /\ curr_j st = Z.of_nat j /\
    at2 trellis i j = Some c.

(** Two outcomes of the walk that agree on everything but [curr_j]. *)
Definition same_path (r1 r2 : result walk_state) : Prop :=
  match r1, r2 with
  | Ok s1, Ok s2 => curr_i s1 = curr_i s2 /\ best_path s1 = best_path s2
  | Raise e1, Raise e2 => e1 = e2
  | _, _ => False
  end.

(** ** Reading the triangle *)

(** [list(map(f, l))] and [[f(x) for x in l]]: [f] is called on the items
    in order and the first exception ends the evaluation. *)
Fixpoint map_result {A B : Type} (f : A -> result B) (l : list A)
  : result (list B) :=
  match l with
  | [] => Ok []
  | x :: l' => y <- f x ;; ys <- map_result f l' ;; Ok (y :: ys)
  end.

(** Strings are lists of characters; the characters and the two built-ins
    that inspect them are parameters: [isspace c] tells whether [c] is
    whitespace ([str.isspace]) and [py_int] is [int] on a string. *)
Module PyStr.
Section WithSpace.
Context {char : Type}.
Variable isspace : char -> bool.

(** [s.lstrip()] *)
Fixpoint lstrip (s : list char) : list char :=
  match s with
  | [] => []
  | c :: s' => if isspace c then lstrip s' else s
  end.

(** [s.strip()]: leading and trailing whitespace removed. *)
Definition strip (s : list char) : list char :=
  rev (lstrip (rev (lstrip s))).

(** [s.split()]: the maximal runs of non-whitespace characters, in order;
    [word] holds, reversed, the run being read. *)
Fixpoint split_from (word : list char) (s : list char) : list (list char) :=
  match s with
  | [] =>
      match word with
      | [] => []
      | _ => [rev word]
      end
  | c :: s' =>
      if isspace c then
        match word with
        | [] => split_from [] s'
        | _ => rev word :: split_from [] s'
        end
      else split_from (c :: word) s'
  end.

Definition split (s : list char) : list (list char) := split_from [] s.

End WithSpace.
End PyStr.

Section Reader.
Context {char : Type}.
Variable isspace : char -> bool.
Variable py_int : list char -> result Z.

(** [read_triangle], from the list of lines [f.readlines()] returns:
    [[list(map(int, line.strip().split())) for line in lines]]. *)
Definition read_triangle (lines : list (list char)) : result Triangle :=
  map_result
    (fun line =>
       map_result py_int (PyStr.split isspace (PyStr.strip isspace line)))
    lines.

(** [main], from the lines of the file. *)
Definition main_lines (lines : list (list char)) : result (Z * list Z) :=
  triangle <- read_triangle lines ;;
  trellis <- compute_trellis triangle ;;
  compute_best_path triangle trellis.

End Reader.

(** An instance of the parameters for examples: ASCII text, where space,
    tab, line feed and carriage return are whitespace, and numerals are
    plain decimal digits with an optional minus sign. *)
Definition ascii_space (c : ascii) : bool :=
  let n := nat_of_ascii c in
  ((n =? 32) || (n =? 9) || (n =? 10) || (n =? 13))%nat.

Fixpoint digits_value (acc : Z) (s : list ascii) : result Z :=
  match s with
  | [] => Ok acc
  | c :: s' =>
      let n := nat_of_ascii c in
      if ((48 <=? n) && (n <=? 57))%nat
      then digits_value (10 * acc + Z.of_nat (n - 48)) s'
      else Raise ValueError
  end.

Definition decimal_int (s : list ascii) : result Z :=
  match s with
  | [] => Raise ValueError
  | c :: s' =>
      if (nat_of_ascii c =? 45)%nat then
        match s' with
        | [] => Raise ValueError
        | _ => n <- digits_value 0 s' ;; Ok (- n)
        end
      else digits_value 0 s
  end.

Definition decimal_value (s : list ascii) : Z :=
  match decimal_int s with
  | Ok n => n
  | Raise _ => 0
  end.

(** A line of text, ended by a line feed. *)
Definition text_line (s : string) : list ascii :=
  list_ascii_of_string s ++ [ascii_of_nat 10].

(** ** Adding a constant to every entry *)






(** ** Facts about the list primitives *)

Section PyFacts.
Context {A : Type}.
Implicit Types (l : list A) (m : list (list A)).

Lemma norm_index_nat (n i : nat) :
  (i < n)%nat -> Py.norm_index n (Z.of_nat i) = Some i.
Proof.
  intros Hi. unfold Py.norm_index.
  destruct (Z.ltb_spec (Z.of_nat i) 0) as [?|_]; [lia|].
  destruct (Z.leb_spec 0 (Z.of_nat i)); [|lia].
  destruct (Z.ltb_spec (Z.of_nat i) (Z.of_nat n)); [|lia].
  cbn. by rewrite Nat2Z.id.
Qed.

Lemma norm_index_nat_ge (n i : nat) :
  (n <= i)%nat -> Py.norm_index n (Z.of_nat i) = None.
Proof.
  intros Hi. unfold Py.norm_index.
  destruct (Z.ltb_spec (Z.of_nat i) 0) as [?|_]; [lia|].
  destruct (Z.ltb_spec (Z.of_nat i) (Z.of_nat n)); [lia|].
  by rewrite andb_false_r.
Qed.

Lemma norm_index_last (n : nat) :
  Py.norm_index (S n) (-1) = Some n.
Proof.
  unfold Py.norm_index.
  replace (-1 <? 0) with true by reflexivity.
  destruct (Z.leb_spec 0 (-1 + Z.of_nat (S n))); [|lia].
  destruct (Z.ltb_spec (-1 + Z.of_nat (S n)) (Z.of_nat (S n))); [|lia].
  cbn [andb]. f_equal. lia.
Qed.

Lemma norm_index_bound (n : nat) (k : Z) (i : nat) :
  Py.norm_index n k = Some i -> (i < n)%nat.
Proof.
  unfold Py.norm_index.
  destruct (_ && _) eqn:E; [|discriminate].
  intros [= <-]. apply andb_true_iff in E as [E0 E].
  apply Z.leb_le in E0. apply Z.ltb_lt in E.
  destruct (k <? 0) eqn:Ek; lia.
Qed.

Lemma getitem_nat l (i : nat) x :
  l !! i = Some x -> Py.getitem l (Z.of_nat i) = Ok x.
Proof.
  intros H. unfold Py.getitem.
  rewrite norm_index_nat; [by rewrite H|].
  by eapply lookup_lt_Some.
Qed.

Lemma getitem_nat_ge l (i : nat) :
  (length l <= i)%nat -> Py.getitem l (Z.of_nat i) = Raise IndexError.
Proof. intros H. unfold Py.getitem. by rewrite norm_index_nat_ge. Qed.

Lemma getitem_last l x :
  l !! (length l - 1)%nat = Some x -> Py.getitem l (-1) = Ok x.
Proof.
  intros H. unfold Py.getitem. destruct l as [|y l]; [done|].
  cbn [length] in *. rewrite norm_index_last.
  replace (S (length l) - 1)%nat with (length l) in H by lia.
  by rewrite H.
Qed.

Lemma getitem_nil (k : Z) : Py.getitem (@nil A) k = Raise IndexError.
Proof.
  unfold Py.getitem, Py.norm_index. cbn [length].
  destruct (k <? 0) eqn:E1; [|destruct (Z.ltb_spec k (Z.of_nat 0))].
  - apply Z.ltb_lt in E1.
    destruct (Z.leb_spec 0 (k + Z.of_nat 0)); [lia|done].
  - lia.
  - by rewrite andb_false_r.
Qed.

Lemma getitem_Ok l k x :
  Py.getitem l k = Ok x ->
  exists i, Py.norm_index (length l) k = Some i /\ l !! i = Some x.
Proof.
  unfold Py.getitem. destruct (Py.norm_index _ _) as [i|]; [|done].
  destruct (l !! i) eqn:E; [|done]. intros [= ->]. eauto.
Qed.

Lemma getitem_Raise l k e : Py.getitem l k = Raise e -> e = IndexError.
Proof.
  unfold Py.getitem. destruct (Py.norm_index _ _) as [i|]; [|congruence].
  destruct (l !! i); congruence.
Qed.

Lemma setitem_nat l (i : nat) x :
  (i < length l)%nat -> Py.setitem l (Z.of_nat i) x = Ok (<[i:=x]> l).
Proof. intros H. unfold Py.setitem. by rewrite norm_index_nat. Qed.

Lemma setitem_last l x :
  l <> [] -> Py.setitem l (-1) x = Ok (<[(length l - 1)%nat:=x]> l).
Proof.
  intros H. unfold Py.setitem. destruct l as [|y l]; [done|].
  cbn [length]. rewrite norm_index_last.
  by replace (S (length l) - 1)%nat with (length l) by lia.
Qed.

Lemma setitem_Ok l k x l' :
  Py.setitem l k x = Ok l' ->
  exists i, Py.norm_index (length l) k = Some i /\ l' = <[i:=x]> l.
Proof.
  unfold Py.setitem. destruct (Py.norm_index _ _) as [i|]; [|done].
  intros [= <-]. eauto.
Qed.

Lemma setitem_Raise l k x e : Py.setitem l k x = Raise e -> e = IndexError.
Proof.
  unfold Py.setitem. destruct (Py.norm_index _ _); congruence.
Qed.

End PyFacts.

Section PyFacts2.
Context {A : Type}.
Implicit Types (m : list (list A)).

Lemma getitem2_nat m (i j : nat) row x :
  m !! i = Some row -> row !! j = Some x ->
  Py.getitem2 m (Z.of_nat i) (Z.of_nat j) = Ok x.
Proof.
  intros Hi Hj. unfold Py.getitem2.
  rewrite (getitem_nat _ _ _ Hi). cbn [bind]. by apply getitem_nat.
Qed.

Lemma getitem2_last m (i : nat) row x :
  m !! i = Some row -> row !! (length row - 1)%nat = Some x ->
  Py.getitem2 m (Z.of_nat i) (-1) = Ok x.
Proof.
  intros Hi Hj. unfold Py.getitem2.
  rewrite (getitem_nat _ _ _ Hi). cbn [bind]. by apply getitem_last.
Qed.

Lemma getitem2_Raise m i j e : Py.getitem2 m i j = Raise e -> e = IndexError.
Proof.
  unfold Py.getitem2. destruct (Py.getitem m i) eqn:E; cbn [bind].
  - apply getitem_Raise.
  - intros [= <-]. by eapply getitem_Raise.
Qed.

Lemma setitem2_nat m (i j : nat) row x :
  m !! i = Some row -> (j < length row)%nat ->
  Py.setitem2 m (Z.of_nat i) (Z.of_nat j) x = Ok (<[i:=<[j:=x]> row]> m).
Proof.
  intros Hi Hj. unfold Py.setitem2.
  rewrite (getitem_nat _ _ _ Hi). cbn [bind].
  rewrite setitem_nat by done. cbn [bind].
  apply setitem_nat. by eapply lookup_lt_Some.
Qed.

Lemma setitem2_last m (i : nat) row x :
  m !! i = Some row -> row <> [] ->
  Py.setitem2 m (Z.of_nat i) (-1) x
  = Ok (<[i:=<[(length row - 1)%nat:=x]> row]> m).
Proof.
  intros Hi Hj. unfold Py.setitem2.
  rewrite (getitem_nat _ _ _ Hi). cbn [bind].
  rewrite setitem_last by done. cbn [bind].
  apply setitem_nat. by eapply lookup_lt_Some.
Qed.

Lemma setitem2_Ok m i j x m' :
  Py.setitem2 m i j x = Ok m' ->
  exists (a b : nat) row,
    m !! a = Some row /\ (b < length row)%nat /\ m' = <[a:=<[b:=x]> row]> m.
Proof.
  unfold Py.setitem2. destruct (Py.getitem m i) as [row|] eqn:E; [|done].
  cbn [bind]. apply getitem_Ok in E as (a & Ha & Hrow).
  destruct (Py.setitem row j x) as [row'|] eqn:E'; [|done]. cbn [bind].
  apply setitem_Ok in E' as (b & Hb & ->).
  intros (a' & Ha' & ->)%setitem_Ok.
  assert (a' = a) as -> by congruence.
  exists a, b, row. split_and!; [done| |done].
  by eapply norm_index_bound.
Qed.

Lemma setitem2_Raise m i j x e :
  Py.setitem2 m i j x = Raise e -> e = IndexError.
Proof.
  unfold Py.setitem2. destruct (Py.getitem m i) as [row|] eqn:E; cbn [bind].
  - destruct (Py.setitem row j x) eqn:E'; cbn [bind].
    + apply setitem_Raise.
    + intros [= <-]. by eapply setitem_Raise.
  - intros [= <-]. by eapply getitem_Raise.
Qed.
End PyFacts2.

Lemma range_nat (a b : nat) :
  Py.range (Z.of_nat a) (Z.of_nat b) = map Z.of_nat (seq a (b - a)).
Proof.
  unfold Py.range.
  replace (Z.to_nat (Z.of_nat b - Z.of_nat a)) with (b - a)%nat by lia.
  rewrite <- (Nat.add_0_r a) at 2.
  generalize (b - a)%nat as n, 0%nat as s.
  induction n as [|n IH]; intros s; [done|].
  cbn [seq map]. f_equal; [lia|].
  rewrite IH. by rewrite Nat.add_succ_r.
Qed.

(** Invariant rule for a [for] loop over [range(a, a+n)]. *)
Lemma for_each_inv {S : Type} (Inv : nat -> S -> Prop)
    (body : Z -> S -> result S) (n a : nat) (s : S) :
  Inv a s ->
  (forall k t, (a <= k < a + n)%nat -> Inv k t ->
     exists t', body (Z.of_nat k) t = Ok t' /\ Inv (Datatypes.S k) t') ->
  exists s', Py.for_each (map Z.of_nat (seq a n)) body s = Ok s'
             /\ Inv (a + n)%nat s'.
Proof.
  revert a s. induction n as [|n IH]; intros a s H0 Hstep.
  - exists s. rewrite Nat.add_0_r. by split.
  - cbn [seq map Py.for_each].
    destruct (Hstep a s ltac:(lia) H0) as (t' & -> & Ht'). cbn [bind].
    destruct (IH (Datatypes.S a) t' Ht') as (s' & Hs' & Hinv).
    { intros k t Hk. apply Hstep. lia. }
    exists s'. split; [done|]. by replace (a + Datatypes.S n)%nat
      with (Datatypes.S a + n)%nat by lia.
Qed.

(** ** Shape of a well-formed triangle *)

Lemma rows_from_spec (k : nat) (rows : list (list Z)) :
  rows_from k rows = true <->
  forall (i : nat) row, rows !! i = Some row -> length row = S (k + i).
Proof.
  revert k. induction rows as [|r rows IH]; intros k; cbn [rows_from].
  - split; [|done]. intros _ i row H. by destruct i.
  - rewrite andb_true_iff, Nat.eqb_eq, IH. split.
    + intros [H0 H] [|i] row Hrow; cbn in Hrow.
      * injection Hrow as <-. lia.
      * rewrite (H i row Hrow). lia.
    + intros H. split.
      * rewrite (H 0%nat r eq_refl). lia.
      * intros i row Hrow. rewrite (H (S i) row Hrow). lia.
Qed.

Lemma well_formed_spec (triangle : Triangle) :
  well_formed triangle = true <->
  triangle <> [] /\
  forall (i : nat) row, triangle !! i = Some row -> length row = S i.
Proof.
  destruct triangle as [|r rows].
  - cbn. split; [done|]. by intros [? _].
  - unfold well_formed. rewrite rows_from_spec. split.
    + intros H. split; [done|]. intros i row Hrow. by apply H.
    + intros [_ H] i row Hrow. by apply H.
Qed.

Lemma fill_inner_ok triangle (trellis : Trellis) (k j : nat)
    prev row line l r v :
  trellis !! k = Some prev -> trellis !! S k = Some row ->
  triangle !! S k = Some line ->
  (1 <= j)%nat ->
  prev !! (j - 1)%nat = Some l -> prev !! j = Some r ->
  line !! j = Some v -> (j < length row)%nat ->
  fill_inner triangle (Z.of_nat (S k)) (Z.of_nat j) trellis
  = Ok (<[S k:=<[j:=(fst (best_parent l r) + v, best_offset l r)]> row]>
          trellis).
Proof.
  intros Hprev Hrow Hline Hj Hl Hr Hv Hlen. unfold fill_inner.
  replace (Z.of_nat (S k) - 1) with (Z.of_nat k) by lia.
  cbn [Py.max_key Py.max_from].
  replace (Z.of_nat j + -1) with (Z.of_nat (j - 1)) by lia.
  rewrite (getitem2_nat _ _ _ _ _ Hprev Hl). cbn [bind].
  rewrite Z.add_0_r.
  rewrite (getitem2_nat _ _ _ _ _ Hprev Hr). cbn [bind].
  rewrite (getitem2_nat _ _ _ _ _ Hline Hv).
  unfold best_parent, best_offset.
  destruct (Py.tuple_gt r l); cbn [bind].
  - rewrite Z.add_0_r, (getitem2_nat _ _ _ _ _ Hprev Hr). cbn [bind].
    by apply setitem2_nat.
  - replace (Z.of_nat j + -1) with (Z.of_nat (j - 1)) by lia.
    rewrite (getitem2_nat _ _ _ _ _ Hprev Hl). cbn [bind].
    by apply setitem2_nat.
Qed.

Lemma lookup_lt_ex {A : Type} (l : list A) (i : nat) :
  (i < length l)%nat -> exists x, l !! i = Some x.
Proof. intros H. by apply lookup_lt_is_Some_2 in H as [x Hx]; eauto. Qed.

Lemma fill_row_ok triangle (trellis : Trellis) (k : nat) prev row0 line :
  trellis !! k = Some prev -> length prev = S k ->
  trellis !! S k = Some row0 -> length row0 = S (S k) ->
  triangle !! S k = Some line -> length line = S (S k) ->
  exists row,
    fill_row triangle (Z.of_nat (S k)) trellis = Ok (<[S k:=row]> trellis) /\
    length row = S (S k) /\
    forall (j : nat) v c, line !! j = Some v -> row !! j = Some c ->
      cell_rel prev (S k) j v c.
Proof.
  intros Hprev Lprev Hrow0 Lrow0 Hline Lline.
  assert (Hk : (S k < length trellis)%nat) by by eapply lookup_lt_Some.
  destruct (lookup_lt_ex prev 0) as [p0 Hp0]; [lia|].
  destruct (lookup_lt_ex prev k) as [pk Hpk]; [lia|].
  destruct (lookup_lt_ex line 0) as [v0 Hv0]; [lia|].
  destruct (lookup_lt_ex line (S k)) as [vk Hvk]; [lia|].
  unfold fill_row.
  replace (Z.of_nat (S k) - 1) with (Z.of_nat k) by lia.
  rewrite (getitem2_nat _ k 0 _ _ Hprev Hp0 : Py.getitem2 _ _ 0 = _).
  cbn [bind].
  rewrite (getitem2_nat _ (S k) 0 _ _ Hline Hv0 : Py.getitem2 _ _ 0 = _).
  cbn [bind].
  rewrite (setitem2_nat _ (S k) 0 _ _ Hrow0 ltac:(lia)
            : Py.setitem2 _ _ 0 _ = _).
  cbn [bind].
  set (cL := (fst p0 + v0, 0)).
  rewrite (getitem2_last _ k prev pk);
    [|by rewrite list_lookup_insert_ne by lia
     |by replace (length prev - 1)%nat with k by lia].
  cbn [bind].
  rewrite (getitem2_last _ (S k) line vk);
    [|done|by replace (length line - 1)%nat with (S k) by lia].
  cbn [bind].
  set (cR := (fst pk + vk, -1)).
  rewrite (setitem2_last _ (S k) (<[0%nat:=cL]> row0));
    [|by apply list_lookup_insert_eq
     |by intros E; apply (f_equal length) in E;
         rewrite length_insert, Lrow0 in E].
  cbn [bind]. rewrite list_insert_insert_eq, length_insert, Lrow0.
  replace (S (S k) - 1)%nat with (S k) by lia.
  set (row2 := <[S k:=cR]> (<[0%nat:=cL]> row0)).
  assert (Lrow2 : length row2 = S (S k)).
  { unfold row2. by rewrite !length_insert. }
  rewrite (getitem_nat _ (S k) row2) by by apply list_lookup_insert_eq.
  cbn [bind]. rewrite Lrow2.
  replace (Z.of_nat (S (S k)) - 1) with (Z.of_nat (S k)) by lia.
  rewrite (range_nat 1 (S k) : Py.range 1 _ = _).
  replace (S k - 1)%nat with k by lia.
  pose (Inv := fun (j : nat) (t : Trellis) =>
    exists row, t = <[S k:=row]> trellis /\ length row = S (S k) /\
      forall (j' : nat) v c, line !! j' = Some v -> row !! j' = Some c ->
        (j' = 0 \/ j' = S k \/ j' < j)%nat -> cell_rel prev (S k) j' v c).
  destruct (for_each_inv Inv (fill_inner triangle (Z.of_nat (S k))) k 1
              (<[S k:=row2]> trellis)) as (t & Ht & row & -> & Lrow & Hcells).
  - exists row2. split_and!; [done..|].
    intros j' v c Hv Hc Hj'. unfold cell_rel.
    destruct (decide (j' = 0%nat)) as [->|Hne0].
    + exists p0. split; [done|]. unfold row2 in Hc.
      rewrite list_lookup_insert_ne in Hc by lia.
      rewrite list_lookup_insert_eq in Hc by lia.
      unfold cL in Hc. congruence.
    + destruct (decide (j' = S k)) as [->|HneS]; [|lia].
      exists pk. replace (S k - 1)%nat with k by lia. split; [done|].
      unfold row2 in Hc.
      rewrite list_lookup_insert_eq in Hc by (rewrite length_insert; lia).
      unfold cR in Hc. congruence.
  - intros j t Hj (row & -> & Lrow & Hcells).
    destruct (lookup_lt_ex prev (j - 1)) as [l Hl]; [lia|].
    destruct (lookup_lt_ex prev j) as [r Hr]; [lia|].
    destruct (lookup_lt_ex line j) as [v Hv]; [lia|].
    eexists. split.
    + apply (fill_inner_ok _ _ k j prev row line l r v); try done; try lia.
      * by rewrite list_lookup_insert_ne by lia.
      * by apply list_lookup_insert_eq.
    + rewrite list_insert_insert_eq. eexists. split_and!; [done|..].
      * by rewrite length_insert.
      * intros j' v' c Hv' Hc Hj'.
        destruct (decide (j' = j)) as [->|Hne].
        -- rewrite list_lookup_insert_eq in Hc by lia.
           unfold cell_rel. rewrite decide_False by lia.
           rewrite decide_False by lia.
           exists l, r. split_and!; [done..|]. congruence.
        -- rewrite list_lookup_insert_ne in Hc by done.
           apply (Hcells j' v' c Hv' Hc). lia.
  - exists row. split_and!; [done..|].
    intros j v c Hv Hc. apply (Hcells j v c Hv Hc).
    apply lookup_lt_Some in Hv. lia.
Qed.

Lemma lookup_map {A B : Type} (f : A -> B) (l : list A) (i : nat) :
  map f l !! i = f <$> (l !! i).
Proof.
  revert i. induction l as [|x l IH]; intros [|i]; cbn; try done.
Qed.

Lemma trellis_upto_step triangle d (k : nat) (trellis : Trellis) :
  (forall (i : nat) row, triangle !! i = Some row -> length row = S i) ->
  (S k < length triangle)%nat ->
  trellis_upto triangle d (S k) trellis ->
  exists trellis',
    fill_row triangle (Z.of_nat (S k)) trellis = Ok trellis' /\
    trellis_upto triangle d (S (S k)) trellis'.
Proof.
  intros Hwf Hk (Hlen & Hrows & Hapex & Hcells).
  destruct (lookup_lt_ex trellis k) as [prev Hprev]; [lia|].
  destruct (lookup_lt_ex trellis (S k)) as [row0 Hrow0]; [lia|].
  destruct (lookup_lt_ex triangle (S k)) as [line Hline]; [lia|].
  destruct (fill_row_ok triangle trellis k prev row0 line)
    as (row & Hfill & Lrow & Hrow); eauto.
  exists (<[S k:=row]> trellis). split; [done|]. split_and!.
  - by rewrite length_insert.
  - intros i r Hr.
    apply list_lookup_insert_Some in Hr as [(<- & <- & _)|[_ Hr]];
      [done|by eapply Hrows].
  - destruct Hapex as (v & Hv & H0). exists v. split; [done|].
    by rewrite list_lookup_insert_ne by lia.
  - intros i prev' row' line' Hi Hprev' Hrow' Hline' j v c Hv Hc.
    destruct (decide (i = k)) as [->|Hne].
    + rewrite list_lookup_insert_ne in Hprev' by lia.
      rewrite list_lookup_insert_eq in Hrow' by lia.
      assert (prev' = prev) as -> by congruence.
      assert (row' = row) as -> by congruence.
      assert (line' = line) as -> by congruence.
      by eapply Hrow.
    + rewrite list_lookup_insert_ne in Hprev' by lia.
      rewrite list_lookup_insert_ne in Hrow' by lia.
      eapply (Hcells i); eauto. lia.
Qed.

(** On a well-formed triangle the builder returns, and its result satisfies
    the cell relation everywhere, with [1] stored beside the apex sum. *)
Lemma compute_trellis_ok (triangle : Triangle) :
  well_formed triangle = true ->
  exists trellis,
    compute_trellis triangle = Ok trellis /\ trellis_ok triangle 1 trellis.
Proof.
  intros [Hne Hwf]%well_formed_spec.
  destruct triangle as [|line0 rest] eqn:Etri; [done|]. rewrite <- Etri in *.
  assert (H0 : triangle !! 0%nat = Some line0) by by rewrite Etri.
  pose proof (Hwf _ _ H0) as L0.
  destruct line0 as [|v [|? ?]]; try done. clear L0.
  unfold compute_trellis.
  rewrite (getitem2_nat _ 0 0 _ _ H0 eq_refl : Py.getitem2 _ 0 0 = _).
  cbn [bind].
  set (zeros := map _ triangle).
  assert (Hz : forall i : nat,
             zeros !! i = map (fun _ => (0, 0)) <$> (triangle !! i))
    by apply lookup_map.
  assert (Hz0 : zeros !! 0%nat = Some [(0, 0)]) by by rewrite Hz, H0.
  assert (Lz : length zeros = length triangle) by apply length_map.
  rewrite (setitem2_nat _ 0 0 _ _ Hz0 ltac:(cbn; lia)
            : Py.setitem2 _ 0 0 _ = _).
  cbn [bind]. rewrite length_insert, Lz.
  change (<[0%nat:=(v, 1)]> [(0, 0)]) with [(v, 1)].
  rewrite (range_nat 1 (length triangle) : Py.range 1 _ = _).
  destruct (for_each_inv (trellis_upto triangle 1) (fill_row triangle)
              (length triangle - 1) 1 (<[0%nat:=[(v, 1)]]> zeros))
    as (t & Ht & Hinv).
  - split_and!.
    + by rewrite length_insert.
    + intros i row Hrow.
      apply list_lookup_insert_Some in Hrow as [(<- & <- & _)|[Hi Hrow]];
        [done|].
      rewrite Hz in Hrow. destruct (triangle !! i) as [line|] eqn:El; [|done].
      injection Hrow as <-. rewrite length_map. by eapply Hwf.
    + exists v. split; [by unfold at2; rewrite H0|].
      apply list_lookup_insert_eq. rewrite Lz, Etri. cbn. lia.
    + intros i ? ? ? Hi. lia.
  - intros k t [Hk1 Hk2] Hinv. destruct k as [|k]; [lia|].
    apply trellis_upto_step; [done|lia|done].
  - exists t. split; [done|]. unfold trellis_ok.
    replace (length triangle) with (1 + (length triangle - 1))%nat;
      [done|].
    rewrite Etri. cbn. lia.
Qed.

(** ** Reading the finished trellis *)

Lemma tuple_gt_spec (x y : cell) :
  Py.tuple_gt x y = true <->
  fst x > fst y \/ (fst x = fst y /\ snd x > snd y).
Proof.
  unfold Py.tuple_gt. destruct (Z.eqb_spec (fst x) (fst y)) as [E|E].
  - rewrite Z.gtb_gt. lia.
  - rewrite Z.gtb_gt. lia.
Qed.

Lemma best_parent_max (l r : cell) :
  fst (best_parent l r) = Z.max (fst l) (fst r).
Proof.
  unfold best_parent. destruct (Py.tuple_gt r l) eqn:E.
  - apply tuple_gt_spec in E. lia.
  - assert (H : ~ (fst r > fst l \/ (fst r = fst l /\ snd r > snd l))).
    { rewrite <- tuple_gt_spec. congruence. }
    lia.
Qed.

Lemma best_offset_parent (l r : cell) :
  (best_offset l r = 0 /\ best_parent l r = r) \/
  (best_offset l r = -1 /\ best_parent l r = l).
Proof.
  unfold best_offset, best_parent. destruct (Py.tuple_gt r l); auto.
Qed.

Lemma norm_index_nat_inv (n i a : nat) :
  Py.norm_index n (Z.of_nat i) = Some a -> a = i.
Proof.
  destruct (Nat.lt_ge_cases i n).
  - rewrite norm_index_nat by done. congruence.
  - by rewrite norm_index_nat_ge.
Qed.

Lemma getitem2_at2 {A : Type} (m : list (list A)) (i j : nat) x :
  at2 m i j = Some x -> Py.getitem2 m (Z.of_nat i) (Z.of_nat j) = Ok x.
Proof.
  unfold at2. destruct (m !! i) as [row|] eqn:E; [|done].
  intros H. by eapply getitem2_nat.
Qed.

Lemma getitem2_at2_inv {A : Type} (m : list (list A)) (i j : nat) x :
  Py.getitem2 m (Z.of_nat i) (Z.of_nat j) = Ok x -> at2 m i j = Some x.
Proof.
  unfold Py.getitem2, at2.
  destruct (Py.getitem m (Z.of_nat i)) as [row|] eqn:E; [|done]. cbn [bind].
  intros H.
  apply getitem_Ok in E as (a & Ha & Hrow).
  apply getitem_Ok in H as (b & Hb & Hx).
  apply norm_index_nat_inv in Ha as ->.
  apply norm_index_nat_inv in Hb as ->. by rewrite Hrow.
Qed.

(** Every cell below the apex, with the row above it and the triangle
    value it was built from. *)
Lemma trellis_ok_cell triangle d (trellis : Trellis) (i j : nat) :
  well_formed triangle = true ->
  trellis_ok triangle d trellis ->
  (S i < length triangle)%nat -> (j <= S i)%nat ->
  exists v c prev,
    at2 triangle (S i) j = Some v /\ at2 trellis (S i) j = Some c /\
    trellis !! i = Some prev /\ length prev = S i /\
    cell_rel prev (S i) j v c.
Proof.
  intros [_ Hwf]%well_formed_spec (Hlen & Hrows & _ & Hcells) Hi Hj.
  destruct (lookup_lt_ex trellis i) as [prev Hprev]; [lia|].
  destruct (lookup_lt_ex trellis (S i)) as [row Hrow]; [lia|].
  destruct (lookup_lt_ex triangle (S i)) as [line Hline]; [lia|].
  pose proof (Hrows _ _ Hprev). pose proof (Hrows _ _ Hrow).
  pose proof (Hwf _ _ Hline).
  destruct (lookup_lt_ex line j) as [v Hv]; [lia|].
  destruct (lookup_lt_ex row j) as [c Hc]; [lia|].
  exists v, c, prev. unfold at2. rewrite Hline, Hrow.
  split_and!; try done. by eapply (Hcells i).
Qed.

Lemma trellis_ok_apex triangle d (trellis : Trellis) :
  trellis_ok triangle d trellis ->
  exists v, at2 triangle 0 0 = Some v /\ at2 trellis 0 0 = Some (v, d).
Proof.
  intros (_ & _ & (v & Hv & H0) & _). exists v. split; [done|].
  unfold at2. by rewrite H0.
Qed.

Lemma of_nat_pred (i : nat) : Z.of_nat (S i) - 1 = Z.of_nat i.
Proof. lia. Qed.

(** ** Paths *)

Lemma sumZ_app (a b : list Z) : sumZ (a ++ b) = sumZ a + sumZ b.
Proof.
  unfold sumZ. induction a as [|x a IH]; cbn; [done|]. rewrite IH. lia.
Qed.

Lemma path_to_bounds (i j : nat) cols :
  path_to i j cols -> (j <= i)%nat /\ length cols = S i.
Proof.
  induction 1 as [|i j j' cols _ [IHj IHl] Hj]; [done|].
  rewrite length_app. cbn. lia.
Qed.

Lemma path_to_0_inv (j : nat) cols :
  path_to 0 j cols -> j = 0%nat /\ cols = [0%nat].
Proof. by inversion 1. Qed.

Lemma path_to_S_inv (i j : nat) cols :
  path_to (S i) j cols ->
  exists j0 cols0,
    cols = cols0 ++ [j] /\ path_to i j0 cols0 /\ (j = j0 \/ j = S j0).
Proof. inversion 1; subst. eauto. Qed.

Lemma path_values_snoc (rows : list (list Z)) cols (j : nat) :
  path_values rows (cols ++ [j]) =
  match path_values rows cols, at2 rows (length cols) j with
  | Some vs, Some v => Some (vs ++ [v])
  | _, _ => None
  end.
Proof.
  revert rows. induction cols as [|c cols IH]; intros [|row rows]; cbn;
    try done.
  rewrite IH. unfold at2. cbn.
  destruct (row !! c); [|done].
  destruct (path_values rows cols); [|done].
  by destruct (rows !! length cols) as [r|]; [destruct (r !! j)|].
Qed.

(** The sum stored in a cell is attained by a path to that cell and bounds
    the sum of every path to it. *)
Lemma best_sum_max triangle d (trellis : Trellis) :
  well_formed triangle = true ->
  trellis_ok triangle d trellis ->
  forall (i j : nat) c,
    (i < length triangle)%nat -> at2 trellis i j = Some c ->
    (exists cols vals,
        path_to i j cols /\ path_values triangle cols = Some vals /\
        sumZ vals = fst c) /\
    (forall cols vals,
        path_to i j cols -> path_values triangle cols = Some vals ->
        sumZ vals <= fst c).
Proof.
  intros Hwf Hok. induction i as [|i IH]; intros j c Hi Hc.
  - destruct (trellis_ok_apex _ _ _ Hok) as (v & Hv & H0).
    assert (Hrow : trellis !! 0%nat = Some [(v, d)]).
    { destruct Hok as (_ & _ & (v' & Hv' & H0') & _). congruence. }
    unfold at2 in Hc. rewrite Hrow in Hc.
    apply list_lookup_singleton_Some in Hc as [-> <-].
    assert (Hvals : path_values triangle [0%nat] = Some [v]).
    { unfold at2 in Hv. destruct triangle as [|row rows]; [done|].
      cbn in *. by rewrite Hv. }
    split.
    + exists [0%nat], [v]. split_and!; [constructor|done|cbn; lia].
    + intros cols vals [_ ->]%path_to_0_inv Hvals'.
      assert (vals = [v]) as -> by congruence. cbn. lia.
  - assert (Hj : (j <= S i)%nat).
    { destruct Hok as (_ & Hrows & _). unfold at2 in Hc.
      destruct (trellis !! S i) as [row|] eqn:E; [|done].
      apply Hrows in E. apply lookup_lt_Some in Hc. lia. }
    destruct (trellis_ok_cell _ _ _ i j Hwf Hok Hi Hj)
      as (v & c' & prev & Hv & Hc' & Hprev & Lprev & Hrel).
    assert (c' = c) as -> by congruence.
    assert (Hup : forall (j0 : nat) p, prev !! j0 = Some p ->
                    at2 trellis i j0 = Some p).
    { intros j0 p Hp. unfold at2. by rewrite Hprev. }
    assert (Hext : forall (j0 : nat) p cols vals,
               prev !! j0 = Some p -> (j = j0 \/ j = S j0) ->
               path_to i j0 cols -> path_values triangle cols = Some vals ->
               path_to (S i) j (cols ++ [j]) /\
               path_values triangle (cols ++ [j]) = Some (vals ++ [v]) /\
               sumZ (vals ++ [v]) = sumZ vals + v).
    { intros j0 p cols vals Hp Hjj Hpath Hvals. split_and!.
      - by econstructor.
      - rewrite path_values_snoc, Hvals.
        destruct (path_to_bounds _ _ _ Hpath) as [_ ->]. by rewrite Hv.
      - rewrite sumZ_app. cbn. lia. }
    assert (Hbound : forall cols vals,
               path_to (S i) j cols -> path_values triangle cols = Some vals ->
               exists (j0 : nat) cols0 vals0,
                 (j = j0 \/ j = S j0) /\ (j0 <= i)%nat /\
                 path_to i j0 cols0 /\
                 path_values triangle cols0 = Some vals0 /\
                 sumZ vals = sumZ vals0 + v).
    { intros cols vals (j0 & cols0 & -> & Hpath & Hjj)%path_to_S_inv Hvals.
      rewrite path_values_snoc in Hvals.
      destruct (path_values triangle cols0) as [vals0|] eqn:E0; [|done].
      destruct (path_to_bounds _ _ _ Hpath) as [Hj0 Hl0].
      rewrite Hl0, Hv in Hvals. injection Hvals as <-.
      exists j0, cols0, vals0. split_and!; try done.
      rewrite sumZ_app. cbn. lia. }
    unfold cell_rel in Hrel.
    destruct (decide (j = 0%nat)) as [->|Hne0];
      [|destruct (decide (j = S i)) as [->|HneS]].
    + destruct Hrel as (p & Hp & ->).
      destruct (IH 0%nat p ltac:(lia) (Hup _ _ Hp))
        as [(cols & vals & Hpath & Hvals & Hsum) Hmax].
      split.
      * destruct (Hext 0%nat p cols vals) as (? & ? & ?); auto.
        eexists _, _. split_and!; [done..|]. cbn. lia.
      * intros cols' vals' Hpath' Hvals'.
        destruct (Hbound _ _ Hpath' Hvals')
          as (j0 & cols0 & vals0 & Hjj & Hj0 & Hp0 & Hv0 & ->).
        assert (j0 = 0%nat) as -> by lia.
        specialize (Hmax _ _ Hp0 Hv0). cbn. lia.
    + destruct Hrel as (p & Hp & ->).
      replace (S i - 1)%nat with i in Hp by lia.
      destruct (IH i p ltac:(lia) (Hup _ _ Hp))
        as [(cols & vals & Hpath & Hvals & Hsum) Hmax].
      split.
      * destruct (Hext i p cols vals) as (? & ? & ?); auto.
        eexists _, _. split_and!; [done..|]. cbn. lia.
      * intros cols' vals' Hpath' Hvals'.
        destruct (Hbound _ _ Hpath' Hvals')
          as (j0 & cols0 & vals0 & Hjj & Hj0 & Hp0 & Hv0 & ->).
        assert (j0 = i) as -> by lia.
        specialize (Hmax _ _ Hp0 Hv0). cbn. lia.
    + destruct Hrel as (l & r & Hl & Hr & ->).
      destruct (IH (j - 1)%nat l ltac:(lia) (Hup _ _ Hl))
        as [(colsl & valsl & Hpathl & Hvalsl & Hsuml) Hmaxl].
      destruct (IH j r ltac:(lia) (Hup _ _ Hr))
        as [(colsr & valsr & Hpathr & Hvalsr & Hsumr) Hmaxr].
      cbn [fst]. rewrite best_parent_max. split.
      * destruct (Z.max_spec (fst l) (fst r)) as [[_ ->]|[_ ->]].
        -- destruct (Hext j r colsr valsr) as (? & ? & ?); auto.
           eexists _, _. split_and!; [done..|]. lia.
        -- destruct (Hext (j - 1)%nat l colsl valsl) as (? & ? & ?);
             auto; [lia|].
           eexists _, _. split_and!; [done..|]. lia.
      * intros cols' vals' Hpath' Hvals'.
        destruct (Hbound _ _ Hpath' Hvals')
          as (j0 & cols0 & vals0 & [->| ->] & Hj0 & Hp0 & Hv0 & ->).
        -- specialize (Hmaxr _ _ Hp0 Hv0). lia.
        -- replace (S j0 - 1)%nat with j0 in * by lia.
           specialize (Hmaxl _ _ Hp0 Hv0). lia.
Qed.

(** ** The backward walk *)

Lemma walk_body_curr_i triangle trellis st st' :
  walk_body triangle trellis st = Ok st' -> curr_i st' = curr_i st - 1.
Proof.
  unfold walk_body.
  destruct (Py.getitem2 triangle _ _); [|done]. cbn [bind].
  destruct (Py.getitem2 trellis _ _); [|done]. cbn [bind].
  by intros [= <-].
Qed.

(** [walk_while] satisfies the equation of the [while] loop. *)
Lemma walk_while_unfold triangle trellis st :
  walk_while triangle trellis st =
  if curr_i st >=? 0 then
    st' <- walk_body triangle trellis st ;; walk_while triangle trellis st'
  else Ok st.
Proof.
  unfold walk_while. destruct (Z.geb_spec (curr_i st) 0) as [Hge|Hlt].
  - replace (Z.to_nat (curr_i st + 1)) with (S (Z.to_nat (curr_i st))) by lia.
    cbn [iterate].
    destruct (walk_body triangle trellis st) as [st'|e] eqn:E; [|done].
    cbn [bind]. rewrite (walk_body_curr_i _ _ _ _ E).
    by replace (curr_i st - 1 + 1) with (curr_i st) by lia.
  - by replace (Z.to_nat (curr_i st + 1)) with 0%nat by lia.
Qed.

Lemma cell_rel_parent (prev : list cell) (i j : nat) v c :
  length prev = S i -> (j <= S i)%nat ->
  cell_rel prev (S i) j v c ->
  exists (j0 : nat) p,
    prev !! j0 = Some p /\ fst c = fst p + v /\
    Z.of_nat j + snd c = Z.of_nat j0 /\ (j = j0 \/ j = S j0) /\
    (snd c = 0 \/ snd c = -1).
Proof.
  intros Lprev Hj. unfold cell_rel.
  destruct (decide (j = 0%nat)) as [->|Hne0];
    [|destruct (decide (j = S i)) as [->|HneS]].
  - intros (p & Hp & ->). exists 0%nat, p. cbn. split_and!; auto; lia.
  - intros (p & Hp & ->). exists (S i - 1)%nat, p. cbn.
    split_and!; auto; lia.
  - intros (l & r & Hl & Hr & ->).
    destruct (best_offset_parent l r) as [[-> ->]|[-> ->]].
    + exists j, r. cbn. split_and!; auto; lia.
    + exists (j - 1)%nat, l. cbn. split_and!; auto; lia.
Qed.

Lemma walk_body_at triangle (trellis : Trellis) (i j : nat) acc v c :
  at2 triangle i j = Some v -> at2 trellis i j = Some c ->
  walk_body triangle trellis
    {| curr_i := Z.of_nat i; curr_j := Z.of_nat j; best_path := acc |}
  = Ok {| curr_i := Z.of_nat i - 1; curr_j := Z.of_nat j + snd c;
          best_path := acc ++ [v] |}.
Proof.
  intros Hv Hc. unfold walk_body. cbn [curr_i curr_j best_path].
  rewrite (getitem2_at2 _ _ _ _ Hv). cbn [bind].
  by rewrite (getitem2_at2 _ _ _ _ Hc).
Qed.

(** Started at a cell [(i, j)] of a finished trellis, the loop runs [i+1]
    times without raising, leaves [curr_i = -1] and the apex's second
    component in [curr_j], and has appended to [best_path], from the bottom
    up, the values of a path from the apex to [(i, j)] whose sum is the one
    stored in the cell; the columns of this path are the values [curr_j]
    takes. *)
Lemma walk_ok triangle d (trellis : Trellis) :
  well_formed triangle = true ->
  trellis_ok triangle d trellis ->
  forall (i j : nat) c acc,
    (i < length triangle)%nat -> at2 trellis i j = Some c ->
    exists cols vals st',
      iterate (S i) (walk_body triangle trellis)
        {| curr_i := Z.of_nat i; curr_j := Z.of_nat j; best_path := acc |}
      = Ok st' /\
      curr_i st' = -1 /\ curr_j st' = d /\ best_path st' = acc ++ rev vals /\
      path_to i j cols /\ path_values triangle cols = Some vals /\
      sumZ vals = fst c /\
      forall (k ck : nat), cols !! k = Some ck ->
        exists st,
          walk_reaches triangle trellis
            {| curr_i := Z.of_nat i; curr_j := Z.of_nat j; best_path := acc |}
            st /\
          curr_i st = Z.of_nat k /\ curr_j st = Z.of_nat ck.
Proof.
  intros Hwf Hok. induction i as [|i IH]; intros j c acc Hi Hc.
  - destruct (trellis_ok_apex _ _ _ Hok) as (v & Hv & H0).
    assert (Hrow : trellis !! 0%nat = Some [(v, d)]).
    { destruct Hok as (_ & _ & (v' & Hv' & H0') & _). congruence. }
    pose proof Hc as Hc0. unfold at2 in Hc0. rewrite Hrow in Hc0.
    apply list_lookup_singleton_Some in Hc0 as [-> <-].
    exists [0%nat], [v]. eexists. cbn [iterate].
    rewrite (walk_body_at _ _ _ _ _ _ _ Hv Hc). cbn [bind].
    split_and!; try done.
    + constructor.
    + unfold at2 in Hv. destruct triangle as [|row rows]; [done|].
      cbn in *. by rewrite Hv.
    + cbn. lia.
    + intros k ck [-> <-]%list_lookup_singleton_Some.
      eexists. split; [apply reach_here|done].
  - assert (Hj : (j <= S i)%nat).
    { destruct Hok as (_ & Hrows & _). unfold at2 in Hc.
      destruct (trellis !! S i) as [row|] eqn:E; [|done].
      apply Hrows in E. apply lookup_lt_Some in Hc. lia. }
    destruct (trellis_ok_cell _ _ _ i j Hwf Hok Hi Hj)
      as (v & c' & prev & Hv & Hc' & Hprev & Lprev & Hrel).
    assert (c' = c) as -> by congruence.
    destruct (cell_rel_parent _ _ _ _ _ Lprev Hj Hrel)
      as (j0 & p & Hp & Hsum & Hstep & Hjj & _).
    assert (Hp' : at2 trellis i j0 = Some p) by (unfold at2; by rewrite Hprev).
    destruct (IH j0 p (acc ++ [v]) ltac:(lia) Hp')
      as (cols & vals & st' & Hrun & Hi' & Hj' & Hpath' & Hpath & Hvals
          & Hs & Hvisit).
    destruct (path_to_bounds _ _ _ Hpath) as [_ Lcols].
    assert (Hbody := walk_body_at _ _ _ _ acc _ _ Hv Hc).
    rewrite of_nat_pred, Hstep in Hbody.
    exists (cols ++ [j]), (vals ++ [v]), st'.
    split_and!; try done.
    + change (iterate (S (S i)) ?b ?s) with (s' <- b s ;; iterate (S i) b s').
      by rewrite Hbody.
    + rewrite Hpath', rev_app_distr, <- app_assoc. done.
    + by econstructor.
    + by rewrite path_values_snoc, Hvals, Lcols, Hv.
    + rewrite sumZ_app. cbn. lia.
    + intros k ck Hk. apply lookup_app_Some in Hk as [Hk|[Hk1 Hk2]].
      * destruct (Hvisit _ _ Hk) as (st & Hreach & ? & ?).
        exists st. split_and!; try done.
        eapply reach_next; [cbn; lia|exact Hbody|exact Hreach].
      * rewrite Lcols in *. apply list_lookup_singleton_Some in Hk2 as [Hk2 <-].
        eexists. split; [apply reach_here|]. cbn. split; [|done].
        f_equal. lia.
Qed.

(** ** Selecting the endpoint *)

Section MaxKey.
Context {A : Type} (f : A -> Z).

Lemma max_from_spec (l : list A) (b : A) :
  exists x,
    Py.max_from Z.gtb (fun y => Ok (f y)) b (f b) l = Ok x /\
    f b <= f x /\
    (forall (k : nat) y, l !! k = Some y -> f y <= f x) /\
    (x = b \/
     exists k : nat, l !! k = Some x /\ f b < f x /\
       forall (k' : nat) y, (k' < k)%nat -> l !! k' = Some y -> f y < f x).
Proof.
  revert b. induction l as [|y l IH]; intros b; cbn [Py.max_from bind].
  - exists b. split_and!; [done|lia|done|by left].
  - destruct (Z.gtb_spec (f y) (f b)) as [Hgt|Hle].
    + destruct (IH y) as (x & -> & Hyx & Hall & Hfirst).
      exists x. split_and!; [done|lia| |right].
      * intros [|k] z Hz; cbn in Hz; [by injection Hz as <-|by eapply Hall].
      * destruct Hfirst as [->|(k & Hk & Hlt & Hbefore)].
        -- exists 0%nat. split_and!; [done|lia|]. intros k' z Hk'. lia.
        -- exists (S k). split_and!; [done|lia|].
           intros [|k'] z Hk' Hz; cbn in Hz.
           ++ injection Hz as <-. lia.
           ++ eapply Hbefore; [|done]. lia.
    + destruct (IH b) as (x & -> & Hbx & Hall & Hfirst).
      exists x. split_and!; [done..| |].
      * intros [|k] z Hz; cbn in Hz; [injection Hz as <-; lia|].
        by eapply Hall.
      * destruct Hfirst as [->|(k & Hk & Hlt & Hbefore)]; [by left|].
        right. exists (S k). split_and!; [done..|].
        intros [|k'] z Hk' Hz; cbn in Hz.
        -- injection Hz as <-. lia.
        -- eapply Hbefore; [|done]. lia.
Qed.

(** [max(l, key=f)] returns the first item of [l] whose key is largest. *)
Lemma max_key_spec (l : list A) :
  l <> [] ->
  exists (k : nat) x,
    Py.max_key Z.gtb (fun y => Ok (f y)) l = Ok x /\
    l !! k = Some x /\
    (forall (k' : nat) y, l !! k' = Some y -> f y <= f x) /\
    (forall (k' : nat) y, (k' < k)%nat -> l !! k' = Some y -> f y < f x).
Proof.
  destruct l as [|b l]; [done|]. intros _. cbn [Py.max_key bind].
  destruct (max_from_spec l b) as (x & Hx & Hbx & Hall & Hfirst).
  destruct Hfirst as [->|(k & Hk & Hlt & Hbefore)].
  - exists 0%nat, b. split_and!; [done..| |intros; lia].
    intros [|k'] y Hy; cbn in Hy; [by injection Hy as <-|by eapply Hall].
  - exists (S k), x. split_and!; [done..| |].
    + intros [|k'] y Hy; cbn in Hy; [injection Hy as <-; lia|].
      by eapply Hall.
    + intros [|k'] y Hk' Hy; cbn in Hy; [injection Hy as <-; lia|].
      eapply Hbefore; [|done]. lia.
Qed.
End MaxKey.

Lemma lookup_enumerate {A : Type} (l : list A) (k : nat) :
  Py.enumerate l !! k = (fun x => (Z.of_nat k, x)) <$> (l !! k).
Proof. unfold Py.enumerate. by rewrite list_lookup_imap. Qed.

(** The endpoint is the leftmost cell of the bottom row among those with
    the largest sum. *)
Lemma find_endpoint_ok (trellis : Trellis) last :
  trellis !! (length trellis - 1)%nat = Some last -> last <> [] ->
  exists (j : nat) c,
    find_endpoint trellis = Ok (Z.of_nat j, c) /\
    last !! j = Some c /\
    (forall (j' : nat) c', last !! j' = Some c' -> fst c' <= fst c) /\
    (forall (j' : nat) c', (j' < j)%nat -> last !! j' = Some c' ->
       fst c' < fst c).
Proof.
  intros Hlast Hne. unfold find_endpoint.
  rewrite (getitem_last _ _ Hlast). cbn [bind].
  destruct (max_key_spec (fun x : Z * cell => fst (snd x)) (Py.enumerate last))
    as (k & x & Hmax & Hk & Hall & Hbefore).
  { destruct last; [done|]. by cbn. }
  rewrite lookup_enumerate in Hk.
  destruct (last !! k) as [c|] eqn:Ec; [|done]. injection Hk as <-.
  exists k, c. split_and!; [done..| |].
  - intros j' c' Hc'. apply (Hall j' (Z.of_nat j', c')).
    by rewrite lookup_enumerate, Hc'.
  - intros j' c' Hj' Hc'. apply (Hbefore j' (Z.of_nat j', c')); [done|].
    by rewrite lookup_enumerate, Hc'.
Qed.

(** ** Path reconstruction on a finished trellis *)

Lemma compute_best_path_ok triangle d (trellis : Trellis) :
  well_formed triangle = true ->
  trellis_ok triangle d trellis ->
  exists last (j : nat) c cols vals st,
    let start := {| curr_i := Z.of_nat (length trellis) - 1;
                    curr_j := Z.of_nat j; best_path := [] |} in
    (trellis !! (length triangle - 1)%nat = Some last /\
     length last = length triangle /\
     find_endpoint trellis = Ok (Z.of_nat j, c) /\
     last !! j = Some c /\
     (forall (j' : nat) c', last !! j' = Some c' -> fst c' <= fst c) /\
     (forall (j' : nat) c', (j' < j)%nat -> last !! j' = Some c' ->
        fst c' < fst c)) /\
    (walk_while triangle trellis start = Ok st /\
     curr_i st = -1 /\ curr_j st = d /\ best_path st = rev vals /\
     compute_best_path triangle trellis = Ok (fst c, vals)) /\
    (path_to (length triangle - 1) j cols /\
     path_values triangle cols = Some vals /\
     sumZ vals = fst c /\
     forall (k ck : nat), cols !! k = Some ck ->
       exists st',
         walk_reaches triangle trellis start st' /\
         curr_i st' = Z.of_nat k /\ curr_j st' = Z.of_nat ck).
Proof.
  intros Hwf Hok.
  pose proof Hwf as [Hne _]%well_formed_spec.
  pose proof Hok as (Hlen & Hrows & _ & _).
  assert (Hn : (0 < length triangle)%nat)
    by (destruct triangle; [done|cbn; lia]).
  destruct (lookup_lt_ex trellis (length triangle - 1)) as [last Hlast]; [lia|].
  pose proof (Hrows _ _ Hlast) as Llast.
  destruct (find_endpoint_ok trellis last)
    as (j & c & Hfind & Hc & Hmax & Hfst).
  { by rewrite Hlen. }
  { intros ->. cbn in Llast. lia. }
  assert (Hat : at2 trellis (length triangle - 1) j = Some c)
    by (unfold at2; by rewrite Hlast).
  destruct (walk_ok _ _ _ Hwf Hok (length triangle - 1)%nat j c []
              ltac:(lia) Hat)
    as (cols & vals & st & Hrun & Hi & Hj & Hbp & Hpath & Hvals & Hsum & Hvis).
  assert (Hstart : Z.of_nat (length trellis) - 1
                   = Z.of_nat (length triangle - 1)) by lia.
  exists last, j, c, cols, vals, st. cbn zeta. rewrite Hstart.
  assert (Hwalk : walk_while triangle trellis
            {| curr_i := Z.of_nat (length triangle - 1);
               curr_j := Z.of_nat j; best_path := [] |} = Ok st).
  { unfold walk_while. cbn [curr_i].
    by replace (Z.to_nat (Z.of_nat (length triangle - 1) + 1))
      with (S (length triangle - 1)) by lia. }
  split_and!; try done.
  - lia.
  - unfold compute_best_path. rewrite Hfind. cbn [bind fst snd].
    rewrite Hstart, Hwalk. cbn [bind]. rewrite Hbp. cbn [app].
    by rewrite rev_involutive.
Qed.

(** ** More on paths *)

Lemma path_values_total (triangle : Triangle) (i j : nat) cols :
  well_formed triangle = true ->
  path_to i j cols -> (i < length triangle)%nat ->
  exists vals, path_values triangle cols = Some vals.
Proof.
  intros [_ Hwf]%well_formed_spec.
  induction 1 as [|i j j' cols Hpath IH Hj]; intros Hi.
  - destruct triangle as [|row rows]; [cbn in Hi; lia|].
    pose proof (Hwf 0%nat row eq_refl) as L.
    destruct row as [|v row]; [done|]. by exists [v].
  - destruct IH as [vals Hvals]; [lia|].
    destruct (path_to_bounds _ _ _ Hpath) as [Hji Lcols].
    destruct (lookup_lt_ex triangle (S i)) as [line Hline]; [lia|].
    pose proof (Hwf _ _ Hline) as Lline.
    destruct (lookup_lt_ex line j') as [v Hv]; [lia|].
    exists (vals ++ [v]). rewrite path_values_snoc, Hvals, Lcols.
    unfold at2. by rewrite Hline, Hv.
Qed.

Lemma path_values_lookup (rows : list (list Z)) cols vals :
  path_values rows cols = Some vals ->
  length vals = length cols /\
  forall (k c : nat), cols !! k = Some c ->
    exists v, at2 rows k c = Some v /\ vals !! k = Some v.
Proof.
  revert rows vals. induction cols as [|c0 cols IH]; intros rows vals; cbn.
  - intros [= <-]. split; [done|]. intros k c H. by destruct k.
  - destruct rows as [|row rows]; [done|].
    destruct (row !! c0) as [v0|] eqn:E0; [|done].
    destruct (path_values rows cols) as [vs|] eqn:E; [|done].
    intros [= <-]. destruct (IH _ _ E) as [L H]. split; [cbn; lia|].
    intros [|k] c Hk; cbn in Hk.
    + injection Hk as <-. exists v0. by split.
    + destruct (H _ _ Hk) as (v & Hv & Hvs). exists v. by split.
Qed.

Lemma path_to_adjacent (i j : nat) cols :
  path_to i j cols ->
  cols !! 0%nat = Some 0%nat /\ cols !! i = Some j /\
  forall (k a b : nat),
    cols !! k = Some a -> cols !! S k = Some b -> b = a \/ b = S a.
Proof.
  induction 1 as [|i j j' cols Hpath (H0 & Hlast & Hadj) Hj].
  - split_and!; [done..|]. intros k a b _ Hb. by destruct k.
  - destruct (path_to_bounds _ _ _ Hpath) as [_ L]. split_and!.
    + by apply lookup_app_l_Some.
    + rewrite lookup_app_r by lia. by rewrite L, Nat.sub_diag.
    + intros k a b Ha Hb.
      apply lookup_app_Some in Hb as [Hb|[Hb1 Hb2]].
      * apply lookup_app_Some in Ha as [Ha|[Ha1 _]]; [by eapply Hadj|].
        apply lookup_lt_Some in Hb. lia.
      * rewrite L in *. apply list_lookup_singleton_Some in Hb2 as [Hk <-].
        assert (k = i) as -> by lia.
        rewrite lookup_app_l in Ha by lia.
        assert (a = j) as -> by congruence. lia.
Qed.

(** Conversely, every column list that starts at [0], has one column per
    row down to row [i], moves by 0 or 1 at each step and ends at [j] is a
    path to [(i, j)]: [path_to] leaves no path out. *)
Lemma path_to_complete (i j : nat) cols :
  length cols = S i ->
  cols !! 0%nat = Some 0%nat -> cols !! i = Some j ->
  (forall (k a b : nat),
      cols !! k = Some a -> cols !! S k = Some b -> b = a \/ b = S a) ->
  path_to i j cols.
Proof.
  revert j cols. induction i as [|i IH]; intros j cols L H0 Hend Hadj.
  - destruct cols as [|c [|? ?]]; try done. cbn in H0, Hend.
    injection H0 as ->. injection Hend as <-. constructor.
  - destruct cols as [|c0 cols0] using rev_ind; [done|]. clear IHcols0.
    rename c0 into x, cols0 into cols'.
    rewrite length_app in L. cbn in L.
    assert (L' : length cols' = S i) by lia.
    rewrite lookup_app_r in Hend by lia.
    replace (S i - length cols')%nat with 0%nat in Hend by lia.
    injection Hend as ->.
    destruct (lookup_lt_ex cols' i) as [j0 Hj0]; [lia|].
    apply (path_step i j0 j cols').
    + apply IH; try done.
      * rewrite lookup_app_l in H0 by lia. done.
      * intros k a b Ha Hb. apply (Hadj k a b); by apply lookup_app_l_Some.
    + apply (Hadj i j0 j); [by apply lookup_app_l_Some|].
      rewrite lookup_app_r by lia.
      by replace (S i - length cols')%nat with 0%nat by lia.
Qed.

Lemma path_to_iff (i j : nat) cols :
  path_to i j cols <->
  length cols = S i /\
  cols !! 0%nat = Some 0%nat /\ cols !! i = Some j /\
  forall (k a b : nat),
    cols !! k = Some a -> cols !! S k = Some b -> b = a \/ b = S a.
Proof.
  split.
  - intros H. destruct (path_to_bounds _ _ _ H) as [_ L].
    destruct (path_to_adjacent _ _ _ H) as (H0 & Hend & Hadj). done.
  - intros (L & H0 & Hend & Hadj). by apply path_to_complete.
Qed.

(** * The claims *)

(** C1 (sum correctness): on every well-formed triangle [compute_trellis]
    returns a trellis, and the first component of each of its cells
    [(i, j)] is the maximum, over the paths from the apex to [(i, j)], of
    the sum of the triangle values along the path. *)
Theorem best_sum_is_max_path_sum (triangle : Triangle) :
  well_formed triangle = true ->
  exists trellis,
    compute_trellis triangle = Ok trellis /\
    forall i j : nat,
      (j <= i < length triangle)%nat ->
      exists c,
        Py.getitem2 trellis (Z.of_nat i) (Z.of_nat j) = Ok c /\
        is_max_path_sum triangle i j (fst c).
Proof.
  intros Hwf.
  destruct (compute_trellis_ok _ Hwf) as (trellis & Hrun & Hok).
  exists trellis. split; [done|]. intros i j [Hj Hi].
  pose proof Hok as (Hlen & Hrows & _).
  destruct (lookup_lt_ex trellis i) as [row Hrow]; [lia|].
  destruct (lookup_lt_ex row j) as [c Hc]; [rewrite (Hrows _ _ Hrow); lia|].
  assert (Hat : at2 trellis i j = Some c) by (unfold at2; by rewrite Hrow).
  exists c. split; [by apply getitem2_at2|].
  destruct (best_sum_max _ _ _ Hwf Hok i j c Hi Hat) as [Hex Hmax].
  split; [done|]. intros cols Hpath.
  destruct (path_values_total _ _ _ _ Hwf Hpath Hi) as [vals Hvals].
  exists vals. split; [done|]. by eapply Hmax.
Qed.

Lemma best_sum_is_max_path_sum_witness :
  well_formed [[3]; [7; 4]; [2; 4; 6]; [8; 5; 9; 3]] = true /\
  exists trellis,
    compute_trellis [[3]; [7; 4]; [2; 4; 6]; [8; 5; 9; 3]] = Ok trellis /\
    forall i j : nat,
      (j <= i < length [[3]; [7; 4]; [2; 4; 6]; [8; 5; 9; 3]])%nat ->
      exists c,
        Py.getitem2 trellis (Z.of_nat i) (Z.of_nat j) = Ok c /\
        is_max_path_sum [[3]; [7; 4]; [2; 4; 6]; [8; 5; 9; 3]] i j (fst c).
Proof.
  split; [reflexivity|]. apply best_sum_is_max_path_sum. reflexivity.
Defined.

(** C2 (known answers): on the triangle [[3],[7,4],[2,4,6],[8,5,9,3]]
    [compute_trellis] followed by [compute_best_path] returns the sum 23 and
    the path [3,7,4,9]; on [[5]] it returns the sum 5 and the path [5]. *)
Theorem known_answers :
  (exists trellis,
      compute_trellis [[3]; [7; 4]; [2; 4; 6]; [8; 5; 9; 3]] = Ok trellis /\
      compute_best_path [[3]; [7; 4]; [2; 4; 6]; [8; 5; 9; 3]] trellis
      = Ok (23, [3; 7; 4; 9])) /\
  (exists trellis,
      compute_trellis [[5]] = Ok trellis /\
      compute_best_path [[5]] trellis = Ok (5, [5])).
Proof.
  split.
  - exists [[(3, 1)]; [(10, 0); (7, -1)]; [(12, 0); (14, -1); (13, -1)];
            [(20, 0); (19, 0); (23, -1); (16, -1)]].
    split; vm_compute; reflexivity.
  - exists [[(5, 1)]]. split; vm_compute; reflexivity.
Qed.

(** C3 (recurrence invariant): in the trellis built from a well-formed
    triangle, an interior cell [(i, j)], [0 < j < i], holds the triangle
    value plus the larger of the two sums above it, and its second component
    is [-1] or [0] and designates a cell above holding that larger sum; the
    left edge cell [(i, 0)] holds the sum above it plus the triangle value,
    with offset [0]; the right edge cell [(i, i)] likewise from cell
    [(i-1, i-1)], with offset [-1]. *)
Theorem trellis_recurrence (triangle : Triangle) :
  well_formed triangle = true ->
  exists trellis,
    compute_trellis triangle = Ok trellis /\
    forall i j : Z,
      0 < i < Z.of_nat (length triangle) -> 0 <= j <= i ->
      exists v c,
        Py.getitem2 triangle i j = Ok v /\
        Py.getitem2 trellis i j = Ok c /\
        (0 < j < i ->
         exists l r p,
           Py.getitem2 trellis (i - 1) (j - 1) = Ok l /\
           Py.getitem2 trellis (i - 1) j = Ok r /\
           fst c = v + Z.max (fst l) (fst r) /\
           (snd c = -1 \/ snd c = 0) /\
           Py.getitem2 trellis (i - 1) (j + snd c) = Ok p /\
           fst p = Z.max (fst l) (fst r)) /\
        (j = 0 ->
         exists p,
           Py.getitem2 trellis (i - 1) 0 = Ok p /\ c = (fst p + v, 0)) /\
        (j = i ->
         exists p,
           Py.getitem2 trellis (i - 1) (i - 1) = Ok p /\
           c = (fst p + v, -1)).
Proof.
  intros Hwf.
  destruct (compute_trellis_ok _ Hwf) as (trellis & Hrun & Hok).
  exists trellis. split; [done|]. intros i j Hi Hj.
  destruct (Z_of_nat_complete j) as [j' ->]; [lia|].
  destruct (Z_of_nat_complete i) as [[|i'] ->]; [lia|lia|].
  destruct (trellis_ok_cell _ _ _ i' j' Hwf Hok ltac:(lia) ltac:(lia))
    as (v & c & prev & Hv & Hc & Hprev & Lprev & Hrel).
  exists v, c. rewrite of_nat_pred.
  split_and!; [by apply getitem2_at2..| | |].
  - intros Hint. unfold cell_rel in Hrel.
    rewrite decide_False in Hrel by lia.
    rewrite decide_False in Hrel by lia.
    destruct Hrel as (l & r & Hl & Hr & ->). cbn [fst snd].
    replace (Z.of_nat j' - 1) with (Z.of_nat (j' - 1)) by lia.
    exists l, r, (best_parent l r).
    rewrite (getitem2_nat _ _ _ _ _ Hprev Hl).
    rewrite (getitem2_nat _ _ _ _ _ Hprev Hr).
    rewrite best_parent_max.
    split_and!; [done|done|lia| | |done].
    + destruct (best_offset_parent l r) as [[-> _]|[-> _]]; auto.
    + destruct (best_offset_parent l r) as [[-> ->]|[-> ->]].
      * rewrite Z.add_0_r. by eapply getitem2_nat.
      * replace (Z.of_nat j' + -1) with (Z.of_nat (j' - 1)) by lia.
        by eapply getitem2_nat.
  - intros Hj0. assert (j' = 0%nat) as -> by lia.
    unfold cell_rel in Hrel. rewrite decide_True in Hrel by done.
    destruct Hrel as (p & Hp & ->). exists p. split; [|done].
    by apply (getitem2_nat _ i' 0 _ _ Hprev Hp).
  - intros Hji. assert (j' = S i') as -> by lia.
    unfold cell_rel in Hrel. rewrite decide_False in Hrel by lia.
    rewrite decide_True in Hrel by done.
    destruct Hrel as (p & Hp & ->). exists p. split; [|done].
    replace (S i' - 1)%nat with i' in Hp by lia.
    by eapply getitem2_nat.
Qed.

Lemma trellis_recurrence_witness :
  well_formed [[1]; [-5; -5]; [1; 1; 1]] = true /\
  exists trellis,
    compute_trellis [[1]; [-5; -5]; [1; 1; 1]] = Ok trellis /\
    Py.getitem2 trellis 2 1 = Ok (-3, -1).
Proof.
  split; [reflexivity|].
  destruct (trellis_recurrence [[1]; [-5; -5]; [1; 1; 1]] eq_refl)
    as (trellis & Hrun & _).
  exists trellis. split; [exact Hrun|].
  vm_compute in Hrun. injection Hrun as <-. reflexivity.
Defined.

(** C4, as stated, fails: in the trellis of the well-formed triangle below,
    the two cells above the interior cell [(4, 2)] hold the same sum [1],
    and the cell stores offset [0] (right), not [-1] (left).  The key of
    [max] is the whole cell, so on equal sums the second components of the
    two candidates decide. *)
Lemma tie_break_left_counterexample :
  let triangle := [[0]; [0; 0]; [0; 0; 1]; [0; 1; 0; 0]; [0; 0; 0; 0; 0]] in
  well_formed triangle = true /\
  exists trellis,
    compute_trellis triangle = Ok trellis /\
    Py.getitem2 trellis 3 1 = Ok (1, -1) /\
    Py.getitem2 trellis 3 2 = Ok (1, 0) /\
    Py.getitem2 trellis 4 2 = Ok (1, 0).
Proof.
  cbn zeta. split; [reflexivity|].
  exists [[(0, 1)]; [(0, 0); (0, -1)]; [(0, 0); (0, -1); (1, -1)];
          [(0, 0); (1, -1); (1, 0); (1, -1)];
          [(0, 0); (1, 0); (1, 0); (1, -1); (1, -1)]].
  split_and!; vm_compute; reflexivity.
Qed.

(** C4, amended: in the trellis built from a well-formed triangle, when the
    two cells above an interior cell [(i, j)] hold the same sum, the cell
    stores offset [0] (right) if the second component of the right
    candidate is greater than that of the left candidate, and offset [-1]
    (left) otherwise. *)
Theorem tie_break_by_parent_offset (triangle : Triangle) :
  well_formed triangle = true ->
  exists trellis,
    compute_trellis triangle = Ok trellis /\
    forall i j : Z,
      0 < j < i -> i < Z.of_nat (length triangle) ->
      exists l r c,
        Py.getitem2 trellis (i - 1) (j - 1) = Ok l /\
        Py.getitem2 trellis (i - 1) j = Ok r /\
        Py.getitem2 trellis i j = Ok c /\
        (fst l = fst r ->
         snd c = if snd r >? snd l then 0 else -1).
Proof.
  intros Hwf.
  destruct (compute_trellis_ok _ Hwf) as (trellis & Hrun & Hok).
  exists trellis. split; [done|]. intros i j Hj Hi.
  destruct (Z_of_nat_complete j) as [j' ->]; [lia|].
  destruct (Z_of_nat_complete i) as [[|i'] ->]; [lia|lia|].
  destruct (trellis_ok_cell _ _ _ i' j' Hwf Hok ltac:(lia) ltac:(lia))
    as (v & c & prev & Hv & Hc & Hprev & Lprev & Hrel).
  unfold cell_rel in Hrel.
  rewrite decide_False in Hrel by lia. rewrite decide_False in Hrel by lia.
  destruct Hrel as (l & r & Hl & Hr & ->).
  exists l, r. eexists. rewrite of_nat_pred.
  replace (Z.of_nat j' - 1) with (Z.of_nat (j' - 1)) by lia.
  split_and!.
  - by eapply getitem2_nat.
  - by eapply getitem2_nat.
  - by apply getitem2_at2.
  - intros Heq. cbn [snd]. unfold best_offset, Py.tuple_gt.
    rewrite Heq, Z.eqb_refl. done.
Qed.

Lemma tie_break_by_parent_offset_witness :
  well_formed [[0]; [0; 0]; [0; 0; 1]; [0; 1; 0; 0]; [0; 0; 0; 0; 0]] = true /\
  exists trellis,
    compute_trellis [[0]; [0; 0]; [0; 0; 1]; [0; 1; 0; 0]; [0; 0; 0; 0; 0]]
    = Ok trellis /\
    forall i j : Z,
      0 < j < i ->
      i < Z.of_nat
            (length [[0]; [0; 0]; [0; 0; 1]; [0; 1; 0; 0]; [0; 0; 0; 0; 0]]) ->
      exists l r c,
        Py.getitem2 trellis (i - 1) (j - 1) = Ok l /\
        Py.getitem2 trellis (i - 1) j = Ok r /\
        Py.getitem2 trellis i j = Ok c /\
        (fst l = fst r ->
         snd c = if snd r >? snd l then 0 else -1).
Proof.
  split; [reflexivity|]. apply tie_break_by_parent_offset. reflexivity.
Defined.

(** ** Triangles of any shape *)

Lemma bind_Ok {A B : Type} (m : result A) (k : A -> result B) b :
  bind m k = Ok b -> exists a, m = Ok a /\ k a = Ok b.
Proof. destruct m as [a|e]; [|done]. cbn. eauto. Qed.

Lemma bind_raises {A B : Type} (m : result A) (k : A -> result B) :
  raises_only_IndexError m ->
  (forall a, m = Ok a -> raises_only_IndexError (k a)) ->
  raises_only_IndexError (bind m k).
Proof.
  intros Hm Hk e. destruct m as [a|e']; cbn.
  - by apply Hk.
  - intros [= <-]. by apply Hm.
Qed.

Lemma for_each_raises {S : Type} (body : Z -> S -> result S) ks (s : S) :
  (forall k t, raises_only_IndexError (body k t)) ->
  raises_only_IndexError (Py.for_each ks body s).
Proof.
  intros Hbody. revert s. induction ks as [|k ks IH]; intros s; cbn.
  - by intros e.
  - apply bind_raises; [apply Hbody|]. intros t _. apply IH.
Qed.

Lemma for_each_preserves {S : Type} (P : S -> Prop)
    (body : Z -> S -> result S) ks (s s' : S) :
  (forall k t t', body k t = Ok t' -> P t -> P t') ->
  Py.for_each ks body s = Ok s' -> P s -> P s'.
Proof.
  intros Hbody. revert s. induction ks as [|k ks IH]; intros s; cbn.
  - by intros [= <-].
  - intros (t & Ht & Hrest)%bind_Ok Hs. eapply IH; [done|]. by eapply Hbody.
Qed.

Lemma setitem2_shape {A : Type} (m : list (list A)) i j x m' :
  Py.setitem2 m i j x = Ok m' -> shape m' = shape m.
Proof.
  intros (a & b & row & Ha & Hb & ->)%setitem2_Ok. unfold shape.
  rewrite list_fmap_insert, length_insert. apply list_insert_id.
  by rewrite list_lookup_fmap, Ha.
Qed.

Local Ltac raises_step :=
  first
    [ intros ?; by apply getitem2_Raise
    | intros ?; by apply setitem2_Raise
    | intros ?; by apply getitem_Raise
    | apply bind_raises; [|intros ? _] ].

Lemma fill_inner_raises triangle i j trellis :
  raises_only_IndexError (fill_inner triangle i j trellis).
Proof.
  unfold fill_inner. cbn [Py.max_key Py.max_from].
  repeat raises_step. by destruct (Py.tuple_gt _ _); intros e.
Qed.

Lemma fill_row_raises triangle i trellis :
  raises_only_IndexError (fill_row triangle i trellis).
Proof.
  unfold fill_row. repeat raises_step.
  apply for_each_raises. intros. apply fill_inner_raises.
Qed.

Lemma compute_trellis_raises triangle :
  raises_only_IndexError (compute_trellis triangle).
Proof.
  unfold compute_trellis. repeat raises_step.
  apply for_each_raises. intros. apply fill_row_raises.
Qed.

Lemma fill_inner_shape triangle i j (trellis trellis' : Trellis) :
  fill_inner triangle i j trellis = Ok trellis' ->
  shape trellis' = shape trellis.
Proof.
  unfold fill_inner.
  intros (s & _ & (v & _ & (p & _ & H)%bind_Ok)%bind_Ok)%bind_Ok.
  by eapply setitem2_shape.
Qed.

Lemma fill_row_shape triangle i (trellis trellis' : Trellis) :
  fill_row triangle i trellis = Ok trellis' ->
  shape trellis' = shape trellis.
Proof.
  unfold fill_row.
  intros (? & _ & (? & _ & (t1 & H1 & H)%bind_Ok)%bind_Ok)%bind_Ok.
  apply bind_Ok in H as (? & _ & (? & _ & (t2 & H2 & H)%bind_Ok)%bind_Ok).
  apply bind_Ok in H as (row & _ & H).
  apply setitem2_shape in H1, H2. rewrite <- H1, <- H2.
  eapply (for_each_preserves (fun t => shape t = shape t2)); [|done|done].
  intros k t t' Ht <-. by eapply fill_inner_shape.
Qed.

(** Shape invariant: the trellis returned has the shape of the triangle. *)
Lemma compute_trellis_shape (triangle : Triangle) (trellis : Trellis) :
  compute_trellis triangle = Ok trellis -> shape trellis = shape triangle.
Proof.
  unfold compute_trellis.
  intros (? & _ & (t0 & H0 & H)%bind_Ok)%bind_Ok.
  apply setitem2_shape in H0.
  assert (Hz : shape t0 = shape triangle).
  { rewrite H0. unfold shape. apply list_eq. intros i.
    rewrite !list_lookup_fmap.
    destruct (triangle !! i); cbn; [|done]. by rewrite length_map. }
  rewrite <- Hz.
  eapply (for_each_preserves (fun t => shape t = shape t0)); [|done|done].
  intros k t t' Ht <-. by eapply fill_row_shape.
Qed.

(** ** Which triangles the builder completes on *)

Lemma rows_fit_spec (prev : nat) (rows : list (list Z)) :
  rows_fit prev rows = true <->
  (forall (i : nat) row, rows !! i = Some row -> (1 <= length row)%nat) /\
  (forall row, rows !! 0%nat = Some row -> (length row <= S prev)%nat) /\
  (forall (i : nat) p row,
      rows !! i = Some p -> rows !! S i = Some row ->
      (length row <= S (length p))%nat).
Proof.
  revert prev. induction rows as [|r rows IH]; intros prev; cbn [rows_fit].
  - split; [|done]. intros _. split_and!; intros; by destruct i || done.
  - rewrite !andb_true_iff, !Nat.leb_le, IH. split.
    + intros [[H1 H2] (Ha & Hb & Hc)]. split_and!.
      * intros [|i] row Hrow; cbn in Hrow; [by injection Hrow as <-|].
        by eapply Ha.
      * intros row [= <-]. done.
      * intros [|i] p row Hp Hrow; cbn in Hp, Hrow.
        -- injection Hp as <-. by apply Hb.
        -- by eapply Hc.
    + intros (Ha & Hb & Hc). split_and!.
      * by apply (Ha 0%nat).
      * by apply Hb.
      * intros i row Hrow. by apply (Ha (S i)).
      * intros row Hrow. by apply (Hc 0%nat r row).
      * intros i p row Hp Hrow. by apply (Hc (S i) p row).
Qed.

Lemma fillable_spec (triangle : Triangle) :
  fillable triangle = true <->
  triangle <> [] /\
  (forall (i : nat) row, triangle !! i = Some row -> (1 <= length row)%nat) /\
  (forall (i : nat) p row,
      triangle !! i = Some p -> triangle !! S i = Some row ->
      (length row <= S (length p))%nat).
Proof.
  destruct triangle as [|r rows]; cbn [fillable].
  - split; [done|]. by intros [? _].
  - rewrite andb_true_iff, Nat.leb_le, rows_fit_spec. split.
    + intros [H1 (Ha & Hb & Hc)]. split_and!; [done|..].
      * intros [|i] row Hrow; cbn in Hrow; [by injection Hrow as <-|].
        by eapply Ha.
      * intros [|i] p row Hp Hrow; cbn in Hp, Hrow.
        -- injection Hp as <-. by apply Hb.
        -- by eapply Hc.
    + intros (_ & Ha & Hc). split_and!.
      * by apply (Ha 0%nat).
      * intros i row Hrow. by apply (Ha (S i)).
      * intros row Hrow. by apply (Hc 0%nat r row).
      * intros i p row Hp Hrow. by apply (Hc (S i) p row).
Qed.

Lemma shape_lookup {A B : Type} (m1 : list (list A)) (m2 : list (list B))
    (i : nat) r1 :
  shape m1 = shape m2 -> m1 !! i = Some r1 ->
  exists r2, m2 !! i = Some r2 /\ length r2 = length r1.
Proof.
  intros H Hr.
  assert (H1 : shape m1 !! i = Some (length r1))
    by (unfold shape; by rewrite list_lookup_fmap, Hr).
  rewrite H in H1. unfold shape in H1. rewrite list_lookup_fmap in H1.
  destruct (m2 !! i) as [r2|]; [|done]. injection H1 as H1. eauto.
Qed.

Lemma zeros_shape (triangle : Triangle) :
  shape (map (fun line : list Z => map (fun _ => (0, 0)) line) triangle)
  = shape triangle.
Proof.
  unfold shape. apply list_eq. intros i. rewrite !list_lookup_fmap.
  destruct (triangle !! i); cbn; [|done]. by rewrite length_map.
Qed.

(** The body of the outer loop returns on a row that fits. *)
Lemma fill_row_runs triangle (trellis : Trellis) (k : nat) pline line :
  shape trellis = shape triangle ->
  triangle !! k = Some pline -> triangle !! S k = Some line ->
  (1 <= length pline)%nat ->
  (1 <= length line <= S (length pline))%nat ->
  exists trellis', fill_row triangle (Z.of_nat (S k)) trellis = Ok trellis'.
Proof.
  intros Hshape Hpline Hline Lpline Lline.
  destruct (shape_lookup _ _ _ _ (eq_sym Hshape) Hpline)
    as (prev & Hprev & Lprev).
  destruct (shape_lookup _ _ _ _ (eq_sym Hshape) Hline)
    as (row0 & Hrow0 & Lrow0).
  assert (Hk : (S k < length trellis)%nat) by by eapply lookup_lt_Some.
  destruct (lookup_lt_ex prev 0) as [p0 Hp0]; [lia|].
  destruct (lookup_lt_ex prev (length prev - 1)) as [pk Hpk]; [lia|].
  destruct (lookup_lt_ex line 0) as [v0 Hv0]; [lia|].
  destruct (lookup_lt_ex line (length line - 1)) as [vk Hvk]; [lia|].
  unfold fill_row. rewrite of_nat_pred.
  rewrite (getitem2_nat _ k 0 _ _ Hprev Hp0 : Py.getitem2 _ _ 0 = _).
  cbn [bind].
  rewrite (getitem2_nat _ (S k) 0 _ _ Hline Hv0 : Py.getitem2 _ _ 0 = _).
  cbn [bind].
  rewrite (setitem2_nat _ (S k) 0 _ _ Hrow0 ltac:(lia)
            : Py.setitem2 _ _ 0 _ = _).
  cbn [bind].
  rewrite (getitem2_last _ k prev pk);
    [|by rewrite list_lookup_insert_ne by lia|done].
  cbn [bind].
  rewrite (getitem2_last _ (S k) line vk); [|done..].
  cbn [bind].
  match goal with
  | |- context [Py.setitem2 (<[S k:=?r]> trellis) _ _ ?x] =>
      rewrite (setitem2_last _ (S k) r);
        [set (row1 := r); set (cR := x)
        |by apply list_lookup_insert_eq
        |by intros E; apply (f_equal length) in E;
            rewrite length_insert in E; cbn in E; lia]
  end.
  cbn [bind]. rewrite list_insert_insert_eq.
  set (row2 := <[(length row1 - 1)%nat:=cR]> row1).
  assert (Lrow2 : length row2 = length line).
  { unfold row2, row1. by rewrite !length_insert. }
  rewrite (getitem_nat _ (S k) row2) by by apply list_lookup_insert_eq.
  cbn [bind]. rewrite Lrow2.
  replace (Z.of_nat (length line) - 1) with (Z.of_nat (length line - 1))
    by lia.
  rewrite (range_nat 1 (length line - 1) : Py.range 1 _ = _).
  pose (Inv := fun (_ : nat) (t : Trellis) =>
    exists row, t = <[S k:=row]> trellis /\ length row = length line).
  destruct (for_each_inv Inv (fill_inner triangle (Z.of_nat (S k)))
              (length line - 1 - 1) 1 (<[S k:=row2]> trellis))
    as (t & Ht & _).
  - by exists row2.
  - intros j t Hj (row & -> & Lrow).
    destruct (lookup_lt_ex prev (j - 1)) as [l Hl]; [lia|].
    destruct (lookup_lt_ex prev j) as [r Hr]; [lia|].
    destruct (lookup_lt_ex line j) as [v Hv]; [lia|].
    eexists. split.
    + apply (fill_inner_ok _ _ k j prev row line l r v); try done; try lia.
      * by rewrite list_lookup_insert_ne by lia.
      * by apply list_lookup_insert_eq.
    + rewrite list_insert_insert_eq. eexists. split; [done|].
      by rewrite length_insert.
  - by exists t.
Qed.

Lemma compute_trellis_runs (triangle : Triangle) :
  fillable triangle = true ->
  exists trellis, compute_trellis triangle = Ok trellis.
Proof.
  intros (Hne & Hrows & Hfit)%fillable_spec.
  destruct triangle as [|line0 rest] eqn:Etri; [done|]. rewrite <- Etri in *.
  assert (H0 : triangle !! 0%nat = Some line0) by by rewrite Etri.
  destruct (lookup_lt_ex line0 0) as [v Hv]; [by apply (Hrows 0%nat)|].
  unfold compute_trellis.
  rewrite (getitem2_nat _ 0 0 _ _ H0 Hv : Py.getitem2 _ 0 0 = _).
  cbn [bind].
  pose proof (zeros_shape triangle) as Hz. set (zeros := map _ triangle) in *.
  destruct (shape_lookup _ _ _ _ (eq_sym Hz) H0) as (z0 & Hz0 & Lz0).
  rewrite (setitem2_nat _ 0 0 _ _ Hz0
             ltac:(rewrite Lz0; by eapply lookup_lt_Some)
            : Py.setitem2 _ 0 0 _ = _).
  cbn [bind]. rewrite length_insert.
  assert (Lz : length zeros = length triangle) by apply length_map.
  rewrite Lz. rewrite (range_nat 1 (length triangle) : Py.range 1 _ = _).
  destruct (for_each_inv (fun _ t => shape t = shape triangle)
              (fill_row triangle) (length triangle - 1) 1
              (<[0%nat:=<[0%nat:=(v, 1)]> z0]> zeros)) as (t & Ht & _).
  - rewrite <- Hz. unfold shape.
    rewrite list_fmap_insert, length_insert. apply list_insert_id.
    by rewrite list_lookup_fmap, Hz0.
  - intros k t [Hk1 Hk2] Hshape. destruct k as [|k]; [lia|].
    destruct (lookup_lt_ex triangle k) as [pline Hpline]; [lia|].
    destruct (lookup_lt_ex triangle (S k)) as [line Hline]; [lia|].
    destruct (fill_row_runs triangle t k pline line) as [t' Ht']; try done.
    + by eapply Hrows.
    + split; [by eapply Hrows|by eapply Hfit].
    + exists t'. split; [done|].
      rewrite <- Hshape. by eapply fill_row_shape.
  - by exists t.
Qed.

Lemma for_each_Ok_inv {S : Type} (P : S -> Prop)
    (body : Z -> S -> result S) (n a : nat) (s s' : S) :
  (forall k t t', body k t = Ok t' -> P t -> P t') ->
  P s ->
  Py.for_each (map Z.of_nat (seq a n)) body s = Ok s' ->
  forall k : nat, (a <= k < a + n)%nat ->
    exists t t', P t /\ body (Z.of_nat k) t = Ok t'.
Proof.
  intros Hbody. revert a s.
  induction n as [|n IH]; intros a s Hs Hrun k Hk; [lia|].
  cbn [seq map Py.for_each] in Hrun.
  apply bind_Ok in Hrun as (t1 & Hb & Hrest).
  destruct (decide (k = a)) as [->|Hne]; [by exists s, t1|].
  apply (IH (Datatypes.S a) t1); [by eapply Hbody|done|lia].
Qed.

Lemma at2_Some {A : Type} (m : list (list A)) (i j : nat) x :
  at2 m i j = Some x ->
  exists row, m !! i = Some row /\ row !! j = Some x /\ (j < length row)%nat.
Proof.
  unfold at2. destruct (m !! i) as [row|]; [|done]. intros H.
  exists row. split_and!; [done..|]. by eapply lookup_lt_Some.
Qed.

(** When the body of the outer loop returns, the row it filled fits. *)
Lemma fill_row_Ok_inv triangle (trellis trellis' : Trellis) (k : nat) pline :
  shape trellis = shape triangle ->
  fill_row triangle (Z.of_nat (S k)) trellis = Ok trellis' ->
  triangle !! k = Some pline -> (1 <= length pline)%nat ->
  exists line,
    triangle !! S k = Some line /\
    (1 <= length line <= S (length pline))%nat.
Proof.
  intros Hshape Hrun Hpline Lpline. unfold fill_row in Hrun.
  apply bind_Ok in Hrun as (up & _ & Hrun).
  apply bind_Ok in Hrun as (elt & Helt & Hrun).
  apply bind_Ok in Hrun as (t1 & Ht1 & Hrun).
  apply bind_Ok in Hrun as (up' & _ & Hrun).
  apply bind_Ok in Hrun as (elt' & _ & Hrun).
  apply bind_Ok in Hrun as (t2 & Ht2 & Hrun).
  apply bind_Ok in Hrun as (row & Hrow & Hrun).
  apply (getitem2_at2_inv _ (S k) 0) in Helt.
  apply at2_Some in Helt as (line & Hline & _ & Lline).
  exists line. split; [done|]. split; [lia|].
  apply setitem2_shape in Ht1, Ht2.
  assert (Hshape2 : shape t2 = shape triangle) by congruence.
  apply getitem_Ok in Hrow as (a & Ha & Hrow).
  apply norm_index_nat_inv in Ha as ->.
  destruct (shape_lookup _ _ _ _ Hshape2 Hrow) as (line' & Hline' & Lrow).
  assert (line' = line) as -> by congruence.
  destruct (Nat.le_gt_cases (length line) 2) as [|Hbig]; [lia|].
  rewrite <- Lrow in Hrun.
  replace (Z.of_nat (length line) - 1) with (Z.of_nat (length line - 1))
    in Hrun by lia.
  rewrite (range_nat 1 (length line - 1) : Py.range 1 _ = _) in Hrun.
  destruct (for_each_Ok_inv (fun t => shape t = shape triangle) _ _ _ _ _
              ltac:(intros ? ? ? Hin <-; by eapply fill_inner_shape)
              Hshape2 Hrun (length line - 2)%nat ltac:(lia))
    as (t3 & t3' & Hshape3 & Hinner).
  unfold fill_inner in Hinner.
  apply bind_Ok in Hinner as (s & Hmax & _).
  cbn [Py.max_key Py.max_from] in Hmax.
  apply bind_Ok in Hmax as (l & _ & Hmax).
  apply bind_Ok in Hmax as (r & Hr & _).
  rewrite of_nat_pred, Z.add_0_r in Hr.
  apply getitem2_at2_inv, at2_Some in Hr as (prev & Hprev & _ & Lprev).
  destruct (shape_lookup _ _ _ _ Hshape3 Hprev) as (pline' & Hpline' & Lp).
  assert (pline' = pline) as -> by congruence. lia.
Qed.

Lemma compute_trellis_Ok_fillable (triangle : Triangle) (trellis : Trellis) :
  compute_trellis triangle = Ok trellis -> fillable triangle = true.
Proof.
  unfold compute_trellis. intros Hrun.
  apply bind_Ok in Hrun as (apex & Hapex & Hrun).
  apply bind_Ok in Hrun as (t0 & Ht0 & Hrun).
  apply (getitem2_at2_inv _ 0 0) in Hapex.
  apply at2_Some in Hapex as (line0 & H0 & _ & L0).
  apply setitem2_shape in Ht0. rewrite zeros_shape in Ht0.
  assert (Lt0 : length t0 = length triangle).
  { apply (f_equal length) in Ht0. unfold shape in Ht0.
    by rewrite !length_fmap in Ht0. }
  rewrite Lt0 in Hrun.
  rewrite (range_nat 1 (length triangle) : Py.range 1 _ = _) in Hrun.
  assert (Hall : forall i : nat, (i < length triangle)%nat ->
            exists row, triangle !! i = Some row /\ (1 <= length row)%nat /\
              forall k : nat, i = S k ->
                exists p, triangle !! k = Some p /\
                          (length row <= S (length p))%nat).
  { induction i as [|k IH]; intros Hi.
    - exists line0. split_and!; [done|lia|]. intros k Hk. lia.
    - destruct IH as (pline & Hpline & Lpline & _); [lia|].
      destruct (for_each_Ok_inv (fun t => shape t = shape triangle) _ _ _ _ _
                  ltac:(intros ? ? ? Hin <-; by eapply fill_row_shape)
                  Ht0 Hrun (S k) ltac:(lia))
        as (t & t' & Hshape & Hrow).
      destruct (fill_row_Ok_inv _ _ _ _ _ Hshape Hrow Hpline Lpline)
        as (line & Hline & Lline).
      exists line. split_and!; [done|lia|].
      intros k' [= <-]. exists pline. split; [done|lia]. }
  apply fillable_spec. split_and!.
  - intros ->. done.
  - intros i row Hrow.
    destruct (Hall i) as (row' & Hrow' & L & _); [by eapply lookup_lt_Some|].
    assert (row' = row) as -> by congruence. done.
  - intros i p row Hp Hrow.
    destruct (Hall (S i)) as (row' & Hrow' & _ & Hfit);
      [by eapply lookup_lt_Some|].
    destruct (Hfit i eq_refl) as (p' & Hp' & L).
    assert (row' = row) as -> by congruence.
    assert (p' = p) as -> by congruence. done.
Qed.

(** C5, as stated, fails: the triangle [[1],[2]] is malformed (row 1 has
    one entry, like row 0), yet the builder raises nothing and returns a
    complete trellis. *)
Lemma malformed_triangle_counterexample :
  well_formed [[1]; [2]] = false /\
  compute_trellis [[1]; [2]] = Ok [[(1, 1)]; [(3, -1)]].
Proof. split; vm_compute; reflexivity. Qed.

(** C5, amended: the builder makes no shape check of its own and never
    raises [ShapeError].  On a malformed triangle that has at least one
    row, no empty row and no row more than one entry longer than the row
    above it, the builder completes and returns a trellis with the row
    lengths of its input; on every other malformed triangle it fails with
    [IndexError] and returns no trellis. *)
Theorem malformed_triangle_outcome (triangle : Triangle) :
  well_formed triangle = false ->
  (fillable triangle = true /\
   exists trellis,
     compute_trellis triangle = Ok trellis /\
     shape trellis = shape triangle) \/
  (fillable triangle = false /\
   compute_trellis triangle = Raise IndexError).
Proof.
  intros _. destruct (compute_trellis triangle) as [trellis|e] eqn:E.
  - left. split; [by eapply compute_trellis_Ok_fillable|].
    exists trellis. split; [done|]. by apply compute_trellis_shape.
  - right. rewrite (compute_trellis_raises _ _ E). split; [|done].
    destruct (fillable triangle) eqn:F; [|done].
    destruct (compute_trellis_runs _ F) as [trellis Hrun]. congruence.
Qed.

Lemma malformed_triangle_outcome_witness :
  well_formed [[1]; [2; 3; 4]] = false /\
  ((fillable [[1]; [2; 3; 4]] = true /\
    exists trellis,
      compute_trellis [[1]; [2; 3; 4]] = Ok trellis /\
      shape trellis = shape [[1]; [2; 3; 4]]) \/
   (fillable [[1]; [2; 3; 4]] = false /\
    compute_trellis [[1]; [2; 3; 4]] = Raise IndexError)).
Proof.
  split; [reflexivity|]. apply malformed_triangle_outcome. reflexivity.
Defined.

(** C6, as stated, fails: on the triangle with zero rows both the builder
    and the reconstruction raise Python's [IndexError] (from [triangle[0]]
    and from [trellis[-1]]), not [EmptyTriangleError]. *)
Lemma empty_triangle_counterexample :
  compute_trellis [] = Raise IndexError /\
  compute_trellis [] <> Raise EmptyTriangleError /\
  compute_best_path [] [] = Raise IndexError /\
  compute_best_path [] [] <> Raise EmptyTriangleError.
Proof. split_and!; done. Qed.

Lemma find_endpoint_Ok_nonempty (trellis : Trellis) e :
  find_endpoint trellis = Ok e -> trellis <> [].
Proof.
  intros H ->. unfold find_endpoint in H. by rewrite getitem_nil in H.
Qed.

Lemma find_endpoint_Raise (trellis : Trellis) e :
  find_endpoint trellis = Raise e -> e = IndexError \/ e = ValueError.
Proof.
  unfold find_endpoint.
  destruct (Py.getitem trellis (-1)) as [last|e'] eqn:E; cbn [bind].
  - destruct last as [|c last]; [intros [= <-]; by right|].
    destruct (max_key_spec (fun x : Z * cell => fst (snd x))
                (Py.enumerate (c :: last))) as (k & x & -> & _); done.
  - intros [= <-]. left. by eapply getitem_Raise.
Qed.

(** C6, amended: on the triangle with zero rows the builder raises
    [IndexError]; the reconstruction raises [IndexError] when given a
    trellis with zero rows, and for any trellis whatever it raises
    [IndexError] or [ValueError]; in no case is a result returned. *)
Theorem empty_triangle_raises :
  compute_trellis [] = Raise IndexError /\
  main [] = Raise IndexError /\
  (forall triangle, compute_best_path triangle [] = Raise IndexError) /\
  (forall trellis,
      compute_best_path [] trellis = Raise IndexError \/
      compute_best_path [] trellis = Raise ValueError).
Proof.
  split_and!; try done.
  intros trellis. unfold compute_best_path.
  destruct (find_endpoint trellis) as [e|e] eqn:E; cbn [bind].
  - left. apply find_endpoint_Ok_nonempty in E.
    unfold walk_while. cbn [curr_i].
    destruct trellis as [|row trellis]; [done|]. cbn [length].
    replace (Z.to_nat (Z.of_nat (S (length trellis)) - 1 + 1))
      with (S (length trellis)) by lia.
    cbn [iterate]. unfold walk_body at 1. unfold Py.getitem2 at 1.
    by rewrite getitem_nil.
  - apply find_endpoint_Raise in E as [-> | ->]; auto.
Qed.

(** ** States visited by the walk *)

Lemma at2_bounds triangle d (trellis : Trellis) (i j : nat) c :
  well_formed triangle = true ->
  trellis_ok triangle d trellis ->
  at2 trellis i j = Some c ->
  (j <= i < length triangle)%nat /\ exists v, at2 triangle i j = Some v.
Proof.
  intros [_ Hwf]%well_formed_spec (Hlen & Hrows & _) Hc. unfold at2 in *.
  destruct (trellis !! i) as [row|] eqn:Erow; [|done].
  pose proof (lookup_lt_Some _ _ _ Erow) as Hi.
  pose proof (lookup_lt_Some _ _ _ Hc) as Hj.
  rewrite (Hrows _ _ Erow) in Hj.
  destruct (lookup_lt_ex triangle i) as [line Hline]; [lia|].
  rewrite Hline. destruct (lookup_lt_ex line j) as [v Hv].
  { rewrite (Hwf _ _ Hline). lia. }
  split; [lia|eauto].
Qed.

Lemma on_cell_step triangle d (trellis : Trellis) st st' :
  well_formed triangle = true ->
  trellis_ok triangle d trellis ->
  on_cell trellis st -> curr_i st >= 0 ->
  walk_body triangle trellis st = Ok st' ->
  on_cell trellis st'.
Proof.
  intros Hwf Hok Hst Hge Hbody.
  destruct (Hst Hge) as (i & j & c & Hi & Hj & Hc).
  destruct (at2_bounds _ _ _ _ _ _ Hwf Hok Hc) as [[Hji Hin] [v Hv]].
  destruct st as [ci cj bp]. cbn in Hi, Hj. subst ci cj.
  rewrite (walk_body_at _ _ _ _ _ _ _ Hv Hc) in Hbody.
  injection Hbody as <-. intros Hge'. cbn in Hge'. cbn [curr_i curr_j].
  destruct i as [|i]; [lia|].
  destruct (trellis_ok_cell _ _ _ i j Hwf Hok Hin Hji)
    as (v' & c' & prev & _ & Hc' & Hprev & Lprev & Hrel).
  assert (c' = c) as -> by congruence.
  destruct (cell_rel_parent _ _ _ _ _ Lprev Hji Hrel)
    as (j0 & p & Hp & _ & Hstep & _).
  exists i, j0, p. split_and!; [lia|done|].
  unfold at2. by rewrite Hprev.
Qed.

Lemma walk_reaches_on_cell triangle d (trellis : Trellis) st st' :
  well_formed triangle = true ->
  trellis_ok triangle d trellis ->
  walk_reaches triangle trellis st st' ->
  on_cell trellis st -> on_cell trellis st'.
Proof.
  intros Hwf Hok. induction 1 as [|st st1 st2 Hge Hbody _ IH]; [done|].
  intros Hst. apply IH. by eapply on_cell_step.
Qed.

(** C7 (endpoint selection): on a well-formed triangle the sum returned by
    [compute_best_path] is the largest first component in the bottom row of
    the trellis, and the walk starts in the bottom row at the column holding
    it, the lowest such column when several hold it. *)
Theorem endpoint_is_leftmost_max (triangle : Triangle) :
  well_formed triangle = true ->
  exists trellis last (j : nat) c path,
    compute_trellis triangle = Ok trellis /\
    Py.getitem trellis (-1) = Ok last /\
    last !! j = Some c /\
    (forall (j' : nat) c', last !! j' = Some c' -> fst c' <= fst c) /\
    (forall (j' : nat) c', (j' < j)%nat -> last !! j' = Some c' ->
       fst c' < fst c) /\
    compute_best_path triangle trellis = Ok (fst c, path) /\
    compute_best_path triangle trellis =
      (st <- walk_while triangle trellis
               {| curr_i := Z.of_nat (length trellis) - 1;
                  curr_j := Z.of_nat j; best_path := [] |} ;;
       Ok (fst c, rev (best_path st))).
Proof.
  intros Hwf.
  destruct (compute_trellis_ok _ Hwf) as (trellis & Hrun & Hok).
  destruct (compute_best_path_ok _ _ _ Hwf Hok)
    as (last & j & c & cols & vals & st
        & (Hlast & Llast & Hfind & Hc & Hmax & Hfirst)
        & (Hwalk & _ & _ & _ & Hres) & _).
  exists trellis, last, j, c, vals.
  pose proof Hok as (Hlen & _).
  split_and!; try done.
  - apply getitem_last. by rewrite Hlen.
  - unfold compute_best_path. by rewrite Hfind.
Qed.

Lemma endpoint_is_leftmost_max_witness :
  well_formed [[1]; [2; 2]] = true /\
  exists trellis,
    compute_trellis [[1]; [2; 2]] = Ok trellis /\
    compute_best_path [[1]; [2; 2]] trellis = Ok (3, [1; 2]) /\
    find_endpoint trellis = Ok (0, (3, 0)).
Proof.
  split; [reflexivity|].
  destruct (endpoint_is_leftmost_max [[1]; [2; 2]] eq_refl)
    as (trellis & _ & _ & _ & _ & Hrun & _).
  exists trellis. split; [exact Hrun|].
  vm_compute in Hrun. injection Hrun as <-. split; reflexivity.
Defined.

(** C8 (path validity): on a well-formed triangle the path returned by
    [compute_best_path] has one element per triangle row; its [k]-th
    element is the value of triangle row [k] at a column [cols[k]]; these
    columns start at [0], end at the selected endpoint, grow by 0 or 1 from
    each row to the next, and are the columns the walk visits; and the
    elements sum to the returned maximum. *)
Theorem best_path_valid (triangle : Triangle) :
  well_formed triangle = true ->
  exists trellis (j : nat) c best_sum path cols,
    compute_trellis triangle = Ok trellis /\
    find_endpoint trellis = Ok (Z.of_nat j, c) /\
    compute_best_path triangle trellis = Ok (best_sum, path) /\
    length path = length triangle /\
    length cols = length triangle /\
    (forall (k : nat) v, path !! k = Some v ->
       exists row (ck : nat),
         triangle !! k = Some row /\ cols !! k = Some ck /\
         row !! ck = Some v) /\
    sumZ path = best_sum /\
    cols !! 0%nat = Some 0%nat /\
    cols !! (length triangle - 1)%nat = Some j /\
    (forall (k a b : nat),
       cols !! k = Some a -> cols !! S k = Some b -> b = a \/ b = S a) /\
    (forall (k ck : nat), cols !! k = Some ck ->
       exists st,
         walk_reaches triangle trellis
           {| curr_i := Z.of_nat (length trellis) - 1;
              curr_j := Z.of_nat j; best_path := [] |} st /\
         curr_i st = Z.of_nat k /\ curr_j st = Z.of_nat ck).
Proof.
  intros Hwf.
  destruct (compute_trellis_ok _ Hwf) as (trellis & Hrun & Hok).
  destruct (compute_best_path_ok _ _ _ Hwf Hok)
    as (last & j & c & cols & vals & st
        & (_ & _ & Hfind & _) & (_ & _ & _ & _ & Hres)
        & (Hpath & Hvals & Hsum & Hvisit)).
  destruct (path_to_bounds _ _ _ Hpath) as [_ Lcols].
  destruct (path_values_lookup _ _ _ Hvals) as [Lvals Hlook].
  destruct (path_to_adjacent _ _ _ Hpath) as (H0 & Hend & Hadj).
  assert (Hn : (0 < length triangle)%nat).
  { apply well_formed_spec in Hwf as [Hne _].
    destruct triangle; [done|cbn; lia]. }
  exists trellis, j, c, (fst c), vals, cols.
  split_and!; try done; try lia.
  intros k v Hk.
  destruct (lookup_lt_ex cols k) as [ck Hck].
  { apply lookup_lt_Some in Hk. lia. }
  destruct (Hlook _ _ Hck) as (v' & Hat & Hv').
  assert (v' = v) as -> by congruence.
  unfold at2 in Hat. destruct (triangle !! k) as [row|]; [|done].
  by exists row, ck.
Qed.

Lemma best_path_valid_witness :
  well_formed [[1]; [-5; -5]; [1; 1; 1]] = true /\
  exists trellis,
    compute_trellis [[1]; [-5; -5]; [1; 1; 1]] = Ok trellis /\
    compute_best_path [[1]; [-5; -5]; [1; 1; 1]] trellis
    = Ok (-3, [1; -5; 1]).
Proof.
  split; [reflexivity|].
  destruct (best_path_valid [[1]; [-5; -5]; [1; 1; 1]] eq_refl)
    as (trellis & _ & _ & _ & _ & _ & Hrun & _).
  exists trellis. split; [exact Hrun|].
  vm_compute in Hrun. injection Hrun as <-. reflexivity.
Defined.

(** C10 (walk stays in bounds): on a well-formed triangle and its trellis,
    at the start of every iteration of the backward walk
    [0 <= curr_j <= curr_i < len(triangle)], and neither
    [triangle[curr_i][curr_j]] nor [trellis[curr_i][curr_j]] raises; the
    walk as a whole returns. *)
Theorem walk_indices_in_bounds (triangle : Triangle) :
  well_formed triangle = true ->
  exists trellis e res,
    compute_trellis triangle = Ok trellis /\
    find_endpoint trellis = Ok e /\
    compute_best_path triangle trellis = Ok res /\
    forall st,
      walk_reaches triangle trellis
        {| curr_i := Z.of_nat (length trellis) - 1;
           curr_j := fst e; best_path := [] |} st ->
      curr_i st >= 0 ->
      0 <= curr_j st <= curr_i st /\
      curr_i st < Z.of_nat (length triangle) /\
      exists elt c,
        Py.getitem2 triangle (curr_i st) (curr_j st) = Ok elt /\
        Py.getitem2 trellis (curr_i st) (curr_j st) = Ok c.
Proof.
  intros Hwf.
  destruct (compute_trellis_ok _ Hwf) as (trellis & Hrun & Hok).
  destruct (compute_best_path_ok _ _ _ Hwf Hok)
    as (last & j & c & cols & vals & st0
        & (Hlast & _ & Hfind & Hc & _) & (_ & _ & _ & _ & Hres) & _).
  exists trellis, (Z.of_nat j, c), (fst c, vals).
  split_and!; [done..|]. cbn [fst]. intros st Hreach Hge.
  pose proof Hok as (Hlen & _).
  assert (Hstart : on_cell trellis
            {| curr_i := Z.of_nat (length trellis) - 1;
               curr_j := Z.of_nat j; best_path := [] |}).
  { intros _. exists (length triangle - 1)%nat, j, c. cbn [curr_i curr_j].
    split_and!; [|done|].
    - apply lookup_lt_Some in Hlast. lia.
    - unfold at2. by rewrite Hlast. }
  destruct (walk_reaches_on_cell _ _ _ _ _ Hwf Hok Hreach Hstart Hge)
    as (i' & j' & c' & Hi' & Hj' & Hc').
  destruct (at2_bounds _ _ _ _ _ _ Hwf Hok Hc') as [[Hji Hin] [v Hv]].
  rewrite Hi', Hj'. split_and!; [lia..|].
  exists v, c'. split; by apply getitem2_at2.
Qed.

Lemma walk_indices_in_bounds_witness :
  well_formed [[3]; [7; 4]; [2; 4; 6]; [8; 5; 9; 3]] = true /\
  exists trellis,
    compute_trellis [[3]; [7; 4]; [2; 4; 6]; [8; 5; 9; 3]] = Ok trellis /\
    find_endpoint trellis = Ok (2, (23, -1)).
Proof.
  split; [reflexivity|].
  destruct (walk_indices_in_bounds [[3]; [7; 4]; [2; 4; 6]; [8; 5; 9; 3]]
              eq_refl) as (trellis & _ & _ & Hrun & _).
  exists trellis. split; [exact Hrun|].
  vm_compute in Hrun. injection Hrun as <-. reflexivity.
Defined.

(** ** The second component of the apex cell *)

Lemma trellis_ok_set_apex triangle d z v (trellis : Trellis) :
  trellis !! 0%nat = Some [(v, d)] ->
  trellis_ok triangle d trellis ->
  trellis_ok triangle z (<[0%nat:=[(v, z)]]> trellis).
Proof.
  intros H0 (Hlen & Hrows & (v' & Hv' & H0') & Hcells).
  assert (v' = v) as -> by congruence.
  assert (Hpos : (0 < length trellis)%nat) by by eapply lookup_lt_Some.
  split_and!.
  - by rewrite length_insert.
  - intros i row Hrow.
    apply list_lookup_insert_Some in Hrow as [(<- & <- & _)|[_ Hrow]];
      [done|by eapply Hrows].
  - exists v. split; [done|]. by apply list_lookup_insert_eq.
  - intros i prev row line Hi Hprev Hrow Hline j w c Hw Hc.
    rewrite list_lookup_insert_ne in Hrow by lia.
    destruct i as [|i].
    + rewrite list_lookup_insert_eq in Hprev by done.
      injection Hprev as <-.
      pose proof (Hcells 0%nat _ _ _ Hi H0 Hrow Hline j w c Hw Hc) as Hrel.
      unfold cell_rel in *.
      destruct (decide (j = 0%nat)); [|destruct (decide (j = 1%nat))].
      * destruct Hrel as (p & [= <-] & ->). by exists (v, z).
      * destruct Hrel as (p & [= <-] & ->). by exists (v, z).
      * destruct Hrel as (l & r & _ & Hr & _). by destruct j as [|[|j]].
    + rewrite list_lookup_insert_ne in Hprev by lia. by eapply Hcells.
Qed.

Lemma norm_index_nonneg (n : nat) (k : Z) (a : nat) :
  Py.norm_index n k = Some a -> 0 <= k -> k = Z.of_nat a.
Proof.
  unfold Py.norm_index. intros H Hk.
  destruct (Z.ltb_spec k 0); [lia|].
  destruct (_ && _); [|done]. injection H as <-. lia.
Qed.

Lemma getitem2_insert_apex {A : Type} (m : list (list A)) row (i j : Z) :
  1 <= i ->
  Py.getitem2 (<[0%nat:=row]> m) i j = Py.getitem2 m i j.
Proof.
  intros Hi. unfold Py.getitem2, Py.getitem. rewrite length_insert.
  destruct (Py.norm_index (length m) i) as [a|] eqn:E; [|done].
  apply norm_index_nonneg in E; [|lia].
  by rewrite list_lookup_insert_ne by lia.
Qed.

Lemma getitem_singleton {A : Type} (x y : A) (j : Z) :
  (Py.getitem [x] j = Ok x /\ Py.getitem [y] j = Ok y) \/
  (Py.getitem [x] j = Raise IndexError /\ Py.getitem [y] j = Raise IndexError).
Proof.
  unfold Py.getitem. cbn [length].
  destruct (Py.norm_index 1 j) as [a|] eqn:E; [|by right].
  apply norm_index_bound in E. left. by replace a with 0%nat by lia.
Qed.

Lemma iterate_apex_indep triangle (trellis : Trellis) v d z :
  trellis !! 0%nat = Some [(v, d)] ->
  forall (i : nat) st,
    curr_i st = Z.of_nat i ->
    same_path
      (iterate (S i) (walk_body triangle (<[0%nat:=[(v, z)]]> trellis)) st)
      (iterate (S i) (walk_body triangle trellis) st).
Proof.
  intros H0.
  assert (Hpos : (0 < length trellis)%nat) by by eapply lookup_lt_Some.
  induction i as [|i IH]; intros st Hi.
  - cbn [iterate]. unfold walk_body. rewrite Hi.
    destruct (Py.getitem2 triangle _ _) as [elt|e]; cbn [bind]; [|done].
    unfold Py.getitem2.
    rewrite (getitem_nat _ 0 _ H0).
    rewrite (getitem_nat (<[0%nat:=[(v, z)]]> trellis) 0 [(v, z)])
      by by apply list_lookup_insert_eq.
    cbn [bind].
    by destruct (getitem_singleton (v, z) (v, d) (curr_j st))
      as [[-> ->]|[-> ->]].
  - change (iterate (S (S i)) ?b ?s) with (s' <- b s ;; iterate (S i) b s').
    assert (Hbody : walk_body triangle (<[0%nat:=[(v, z)]]> trellis) st
                    = walk_body triangle trellis st).
    { unfold walk_body. by rewrite getitem2_insert_apex by lia. }
    rewrite Hbody.
    destruct (walk_body triangle trellis st) as [st'|e] eqn:E; cbn [bind];
      [|done].
    apply IH. rewrite (walk_body_curr_i _ _ _ _ E). lia.
Qed.

Lemma getitem_last_insert_apex {A : Type} (x y z : A) (l : list A) :
  Py.getitem (<[0%nat:=x]> (y :: z :: l)) (-1) = Py.getitem (y :: z :: l) (-1).
Proof.
  unfold Py.getitem. cbn [insert list_insert length].
  by rewrite !norm_index_last.
Qed.

Lemma find_endpoint_apex (trellis : Trellis) v d z (j : Z) c :
  trellis !! 0%nat = Some [(v, d)] ->
  find_endpoint trellis = Ok (j, c) ->
  exists c',
    find_endpoint (<[0%nat:=[(v, z)]]> trellis) = Ok (j, c') /\
    fst c' = fst c.
Proof.
  intros H0 Hfind. destruct trellis as [|row0 [|row1 rest]]; [done|..].
  - cbn in H0. injection H0 as ->. cbn in Hfind. injection Hfind as <- <-.
    by exists (v, z).
  - exists c. split; [|done]. rewrite <- Hfind.
    unfold find_endpoint. by rewrite getitem_last_insert_apex.
Qed.

Lemma compute_best_path_apex triangle (trellis : Trellis) v d z :
  trellis !! 0%nat = Some [(v, d)] ->
  compute_best_path triangle (<[0%nat:=[(v, z)]]> trellis)
  = compute_best_path triangle trellis.
Proof.
  intros H0. unfold compute_best_path.
  destruct (find_endpoint trellis) as [[j c]|e] eqn:E.
  - destruct (find_endpoint_apex _ _ _ z _ _ H0 E) as (c' & -> & Hc').
    cbn [bind fst snd]. rewrite length_insert, Hc'.
    assert (Hpos : (0 < length trellis)%nat) by by eapply lookup_lt_Some.
    unfold walk_while. cbn [curr_i].
    replace (Z.to_nat (Z.of_nat (length trellis) - 1 + 1))
      with (S (length trellis - 1)) by lia.
    pose proof (iterate_apex_indep triangle trellis v d z H0
                  (length trellis - 1)
                  {| curr_i := Z.of_nat (length trellis) - 1;
                     curr_j := j; best_path := [] |}
                  ltac:(cbn; lia)) as Hsame.
    unfold same_path in Hsame.
    destruct (iterate _ (walk_body triangle (<[0%nat:=[(v, z)]]> trellis)) _)
      as [s1|e1];
      destruct (iterate _ (walk_body triangle trellis) _) as [s2|e2];
      try done; cbn [bind].
    + destruct Hsame as [_ ->]. done.
    + by subst e1.
  - cbn [bind]. unfold find_endpoint in *.
    destruct trellis as [|row0 [|row1 rest]]; [done|..].
    + cbn in H0. injection H0 as ->. by cbn in E.
    + by rewrite getitem_last_insert_apex, E.
Qed.

(** C9 (parent offsets): in the trellis built from a well-formed triangle
    every cell below the apex has second component [-1] or [0], and the apex
    cell has second component [1].  The walk adds the apex's second
    component to [curr_j] in its last iteration, so it ends with [curr_j]
    equal to whatever is stored there, yet [compute_best_path] returns the
    same result for every value stored there. *)
Theorem apex_offset_is_dummy (triangle : Triangle) :
  well_formed triangle = true ->
  exists trellis apex,
    compute_trellis triangle = Ok trellis /\
    Py.getitem2 trellis 0 0 = Ok (apex, 1) /\
    (forall (i j : Z) c,
        0 < i -> 0 <= j -> Py.getitem2 trellis i j = Ok c ->
        snd c = -1 \/ snd c = 0) /\
    forall z : Z,
      exists trellis' e st,
        Py.setitem2 trellis 0 0 (apex, z) = Ok trellis' /\
        compute_best_path triangle trellis'
        = compute_best_path triangle trellis /\
        find_endpoint trellis' = Ok e /\
        walk_while triangle trellis'
          {| curr_i := Z.of_nat (length trellis') - 1;
             curr_j := fst e; best_path := [] |} = Ok st /\
        curr_j st = z.
Proof.
  intros Hwf.
  destruct (compute_trellis_ok _ Hwf) as (trellis & Hrun & Hok).
  pose proof Hok as (_ & _ & (apex & Hv & H0) & _).
  exists trellis, apex. split_and!; [done| | |].
  - by apply (getitem2_nat _ 0 0 _ _ H0).
  - intros i j c Hi Hj Hc.
    destruct (Z_of_nat_complete j) as [j' ->]; [lia|].
    destruct (Z_of_nat_complete i) as [[|i'] ->]; [lia|lia|].
    apply getitem2_at2_inv in Hc.
    destruct (at2_bounds _ _ _ _ _ _ Hwf Hok Hc) as [[Hji Hin] _].
    destruct (trellis_ok_cell _ _ _ i' j' Hwf Hok Hin Hji)
      as (v' & c' & prev & _ & Hc' & Hprev & Lprev & Hrel).
    assert (c' = c) as -> by congruence.
    destruct (cell_rel_parent _ _ _ _ _ Lprev Hji Hrel)
      as (_ & _ & _ & _ & _ & _ & [?|?]); auto.
  - intros z.
    pose proof (trellis_ok_set_apex _ _ z _ _ H0 Hok) as Hok'.
    destruct (compute_best_path_ok _ _ _ Hwf Hok')
      as (last & j & c & cols & vals & st
          & (_ & _ & Hfind & _) & (Hwalk & _ & Hz & _) & _).
    exists (<[0%nat:=[(apex, z)]]> trellis), (Z.of_nat j, c), st.
    split_and!; try done.
    + by rewrite (setitem2_nat _ 0 0 _ _ H0 ltac:(cbn; lia)
                    : Py.setitem2 _ 0 0 _ = _).
    + by eapply compute_best_path_apex.
Qed.

Lemma apex_offset_is_dummy_witness :
  well_formed [[3]; [7; 4]] = true /\
  exists trellis,
    compute_trellis [[3]; [7; 4]] = Ok trellis /\
    Py.getitem2 trellis 0 0 = Ok (3, 1).
Proof.
  split; [reflexivity|].
  destruct (apex_offset_is_dummy [[3]; [7; 4]] eq_refl)
    as (trellis & apex & Hrun & _).
  exists trellis. split; [exact Hrun|].
  vm_compute in Hrun. injection Hrun as <-. reflexivity.
Defined.

(** * Further properties of the program *)

(** ** The whole computation on a well-formed triangle *)

(** X1 (the answer is the maximum): on a well-formed triangle [main] returns
    a sum and a path such that the path is the list of values along a route
    from the apex to the bottom row, its sum is the returned sum, and no
    route from the apex to any cell of the bottom row has a larger sum. *)
Theorem main_returns_maximum (triangle : Triangle) :
  well_formed triangle = true ->
  exists s path,
    main triangle = Ok (s, path) /\
    (exists (j : nat) cols,
        path_to (length triangle - 1) j cols /\
        path_values triangle cols = Some path /\ sumZ path = s) /\
    (forall (j : nat) cols,
        path_to (length triangle - 1) j cols ->
        exists vals,
          path_values triangle cols = Some vals /\ sumZ vals <= s).
Proof.
  intros Hwf.
  destruct (compute_trellis_ok _ Hwf) as (trellis & Hrun & Hok).
  destruct (compute_best_path_ok _ _ _ Hwf Hok)
    as (last & j & c & cols & vals & st
        & (Hlast & Llast & _ & Hc & Hmax & _)
        & (_ & _ & _ & _ & Hres) & (Hpath & Hvals & Hsum & _)).
  assert (Hn : (0 < length triangle)%nat).
  { apply well_formed_spec in Hwf as [Hne _].
    destruct triangle; [done|cbn; lia]. }
  exists (fst c), vals. split_and!.
  - unfold main. by rewrite Hrun.
  - by exists j, cols.
  - intros j' cols' Hpath'.
    destruct (path_values_total _ _ _ _ Hwf Hpath') as [vals' Hvals']; [lia|].
    exists vals'. split; [done|].
    destruct (path_to_bounds _ _ _ Hpath') as [Hj' _].
    destruct (lookup_lt_ex last j') as [c' Hc']; [lia|].
    assert (Hat : at2 trellis (length triangle - 1) j' = Some c')
      by (unfold at2; by rewrite Hlast).
    destruct (best_sum_max _ _ _ Hwf Hok (length triangle - 1)%nat j' c'
                ltac:(lia) Hat) as [_ Hle].
    specialize (Hle _ _ Hpath' Hvals'). specialize (Hmax _ _ Hc'). lia.
Qed.

Lemma main_returns_maximum_witness :
  well_formed [[1]; [-5; -5]; [1; 1; 1]] = true /\
  main [[1]; [-5; -5]; [1; 1; 1]] = Ok (-3, [1; -5; 1]).
Proof.
  split; [reflexivity|].
  destruct (main_returns_maximum [[1]; [-5; -5]; [1; 1; 1]] eq_refl)
    as (s & path & Hrun & _).
  vm_compute in Hrun. injection Hrun as <- <-. reflexivity.
Defined.

(** ** Reconstruction on arbitrary arguments *)

Lemma walk_body_raises triangle trellis st :
  raises_only_IndexError (walk_body triangle trellis st).
Proof.
  unfold walk_body. repeat raises_step. by intros e.
Qed.

Lemma iterate_raises triangle trellis (n : nat) st :
  raises_only_IndexError (iterate n (walk_body triangle trellis) st).
Proof.
  revert st. induction n as [|n IH]; intros st; cbn [iterate].
  - by intros e.
  - apply bind_raises; [apply walk_body_raises|]. intros st' _. apply IH.
Qed.

Lemma walk_body_appends triangle trellis st st' :
  walk_body triangle trellis st = Ok st' ->
  exists elt,
    Py.getitem2 triangle (curr_i st) (curr_j st) = Ok elt /\
    best_path st' = best_path st ++ [elt].
Proof.
  unfold walk_body.
  intros (elt & Helt & (c & _ & [= <-])%bind_Ok)%bind_Ok. by exists elt.
Qed.

(** [n] iterations append [n] elements, the first of them read at the
    starting position. *)
Lemma iterate_appends triangle trellis (n : nat) st st' :
  iterate n (walk_body triangle trellis) st = Ok st' ->
  exists elts,
    best_path st' = best_path st ++ elts /\ length elts = n /\
    forall k : nat, n = S k ->
      exists elt,
        Py.getitem2 triangle (curr_i st) (curr_j st) = Ok elt /\
        head elts = Some elt.
Proof.
  revert st. induction n as [|n IH]; intros st; cbn [iterate].
  - intros [= <-]. exists []. split_and!; [by rewrite app_nil_r|done|done].
  - intros (st1 & Hbody & Hrest)%bind_Ok.
    apply walk_body_appends in Hbody as (elt & Helt & Hbp).
    destruct (IH _ Hrest) as (elts & Hbp' & Lelts & _).
    exists (elt :: elts). split_and!.
    + by rewrite Hbp', Hbp, <- app_assoc.
    + cbn. lia.
    + intros k _. by exists elt.
Qed.

Lemma find_endpoint_Ok_inv (trellis : Trellis) e :
  find_endpoint trellis = Ok e ->
  exists last_row (j : nat) c,
    last trellis = Some last_row /\ e = (Z.of_nat j, c) /\
    last_row !! j = Some c /\
    (forall (j' : nat) c', last_row !! j' = Some c' -> fst c' <= fst c) /\
    (forall (j' : nat) c', (j' < j)%nat -> last_row !! j' = Some c' ->
       fst c' < fst c).
Proof.
  intros Hfind. pose proof (find_endpoint_Ok_nonempty _ _ Hfind) as Hne.
  destruct (lookup_lt_ex trellis (length trellis - 1)) as [last_row Hlast].
  { destruct trellis; [done|cbn; lia]. }
  assert (Hne' : last_row <> []).
  { intros ->. unfold find_endpoint in Hfind.
    by rewrite (getitem_last _ _ Hlast) in Hfind. }
  destruct (find_endpoint_ok _ _ Hlast Hne')
    as (j & c & Hfind' & Hc & Hmax & Hfirst).
  exists last_row, j, c. split_and!; try done; [|congruence].
  rewrite last_lookup. by replace (pred (length trellis))
    with (length trellis - 1)%nat by lia.
Qed.

Lemma find_endpoint_ValueError (trellis : Trellis) :
  find_endpoint trellis = Raise ValueError <-> last trellis = Some [].
Proof.
  rewrite last_lookup.
  replace (pred (length trellis)) with (length trellis - 1)%nat by lia.
  split.
  - intros Hfind.
    destruct (trellis !! (length trellis - 1)%nat) as [last_row|] eqn:Hlast.
    + destruct last_row as [|c last_row]; [done|].
      destruct (find_endpoint_ok _ _ Hlast) as (? & ? & Hok & _); [done|].
      congruence.
    + unfold find_endpoint in Hfind.
      destruct (Py.getitem trellis (-1)) as [r|e] eqn:E; cbn [bind] in Hfind.
      * apply getitem_Ok in E as (a & Ha & Hr).
        destruct trellis as [|r0 trellis]; [done|].
        cbn [length] in *. rewrite norm_index_last in Ha. injection Ha as <-.
        replace (S (length trellis) - 1)%nat with (length trellis) in Hlast
          by lia.
        congruence.
      * apply getitem_Raise in E. congruence.
  - intros Hlast. unfold find_endpoint.
    by rewrite (getitem_last _ _ Hlast).
Qed.

Lemma compute_best_path_Raise triangle (trellis : Trellis) e :
  compute_best_path triangle trellis = Raise e ->
  (e = ValueError /\ last trellis = Some []) \/ e = IndexError.
Proof.
  unfold compute_best_path.
  destruct (find_endpoint trellis) as [ep|e'] eqn:E; cbn [bind].
  - intros H. right.
    destruct (walk_while _ _ _) as [st|e''] eqn:Ew; [done|].
    cbn [bind] in H. injection H as <-.
    unfold walk_while in Ew. by eapply iterate_raises.
  - intros [= <-].
    destruct (find_endpoint_Raise _ _ E) as [->| ->]; [by right|].
    left. split; [done|]. by apply find_endpoint_ValueError.
Qed.

Lemma compute_best_path_length triangle (trellis : Trellis) s path :
  compute_best_path triangle trellis = Ok (s, path) ->
  length path = length trellis.
Proof.
  unfold compute_best_path.
  intros (e & Hfind & (st & Hwalk & [= <- <-])%bind_Ok)%bind_Ok.
  pose proof (find_endpoint_Ok_nonempty _ _ Hfind) as Hne.
  assert (Hn : (0 < length trellis)%nat)
    by (destruct trellis; [done|cbn; lia]).
  unfold walk_while in Hwalk. cbn [curr_i] in Hwalk.
  apply iterate_appends in Hwalk as (elts & Hbp & Lelts & _).
  cbn [best_path app] in Hbp. rewrite Hbp, length_rev. lia.
Qed.

(** X2 (shape invariant): whenever the builder returns, on any triangle, the
    trellis has as many rows as the triangle and each of its rows has as
    many cells as the triangle row has entries. *)
Theorem trellis_has_triangle_shape (triangle : Triangle) (trellis : Trellis) :
  compute_trellis triangle = Ok trellis ->
  length trellis = length triangle /\
  forall (i : nat) line,
    triangle !! i = Some line ->
    exists row, trellis !! i = Some row /\ length row = length line.
Proof.
  intros Hshape%compute_trellis_shape. split.
  - apply (f_equal length) in Hshape. unfold shape in Hshape.
    by rewrite !length_fmap in Hshape.
  - intros i line Hline. by eapply shape_lookup.
Qed.

Lemma trellis_has_triangle_shape_witness :
  compute_trellis [[1]; [2]] = Ok [[(1, 1)]; [(3, -1)]] /\
  length [[(1, 1)]; [(3, -1)]] = length [[1]; [2]] /\
  forall (i : nat) line,
    [[1]; [2]] !! i = Some line ->
    exists row : list cell,
      [[(1, 1)]; [(3, -1)]] !! i = Some row /\ length row = length line.
Proof.
  split; [reflexivity|].
  apply (trellis_has_triangle_shape [[1]; [2]] [[(1, 1)]; [(3, -1)]]).
  reflexivity.
Defined.

(** X3 (what reconstruction returns, on any arguments): whenever
    [compute_best_path] returns, the path has exactly one element per row
    of the trellis, its last element is the triangle entry at the selected
    endpoint, and the returned sum is the largest first component in the
    last row of the trellis, taken at the lowest column that holds it. *)
Theorem best_path_length_and_sum triangle (trellis : Trellis) s path :
  compute_best_path triangle trellis = Ok (s, path) ->
  length path = length trellis /\
  exists last_row (j : nat) c elt,
    last trellis = Some last_row /\
    last_row !! j = Some c /\ s = fst c /\
    (forall (j' : nat) c', last_row !! j' = Some c' -> fst c' <= fst c) /\
    (forall (j' : nat) c', (j' < j)%nat -> last_row !! j' = Some c' ->
       fst c' < fst c) /\
    Py.getitem2 triangle (Z.of_nat (length trellis) - 1) (Z.of_nat j)
    = Ok elt /\
    last path = Some elt.
Proof.
  unfold compute_best_path.
  intros (e & Hfind & (st & Hwalk & [= <- <-])%bind_Ok)%bind_Ok.
  pose proof (find_endpoint_Ok_nonempty _ _ Hfind) as Hne.
  destruct (find_endpoint_Ok_inv _ _ Hfind)
    as (last_row & j & c & Hlast & -> & Hc & Hmax & Hfirst).
  cbn [fst snd] in *.
  assert (Hn : (0 < length trellis)%nat)
    by (destruct trellis; [done|cbn; lia]).
  unfold walk_while in Hwalk. cbn [curr_i] in Hwalk.
  replace (Z.to_nat (Z.of_nat (length trellis) - 1 + 1))
    with (S (length trellis - 1)) in Hwalk by lia.
  apply iterate_appends in Hwalk as (elts & Hbp & Lelts & Hhead).
  destruct (Hhead _ eq_refl) as (elt & Helt & Hhd).
  cbn [best_path curr_i curr_j app] in *. rewrite Hbp. split.
  - rewrite length_rev. lia.
  - exists last_row, j, c, elt. split_and!; try done.
    destruct elts as [|x elts]; [done|]. injection Hhd as ->.
    cbn [rev]. by rewrite last_snoc.
Qed.

Lemma best_path_length_and_sum_witness :
  compute_best_path [[1]; [2]] [[(1, 1)]; [(3, -1)]] = Ok (3, [1; 2]) /\
  length [1; 2] = length [[(1, 1)]; [(3, -1)]].
Proof.
  split; [reflexivity|].
  apply (best_path_length_and_sum [[1]; [2]] [[(1, 1)]; [(3, -1)]] 3 [1; 2]).
  reflexivity.
Defined.

(** X4 (exceptions of reconstruction, on any arguments):
    [compute_best_path] raises [ValueError] exactly when the trellis has a
    last row and that row is empty ([max] of an empty sequence); it raises
    [IndexError] on a trellis with no row; and it raises nothing but these
    two exceptions. *)
Theorem compute_best_path_exceptions triangle (trellis : Trellis) :
  (compute_best_path triangle trellis = Raise ValueError <->
   last trellis = Some []) /\
  (trellis = [] -> compute_best_path triangle trellis = Raise IndexError) /\
  (forall e,
      compute_best_path triangle trellis = Raise e ->
      e = IndexError \/ e = ValueError).
Proof.
  split_and!.
  - split.
    + intros [[_ H]|H]%compute_best_path_Raise; done.
    + intros H%find_endpoint_ValueError. unfold compute_best_path.
      by rewrite H.
  - by intros ->.
  - intros e [[-> _]| ->]%compute_best_path_Raise; auto.
Qed.

(** X5 (outcomes of the whole computation, on any triangle): [main] either
    returns a sum and a path with one element per triangle row, or raises
    [IndexError]; it raises no other exception. *)
Theorem main_outcome (triangle : Triangle) :
  (exists s path,
      main triangle = Ok (s, path) /\ length path = length triangle) \/
  main triangle = Raise IndexError.
Proof.
  unfold main.
  destruct (compute_trellis triangle) as [trellis|e] eqn:Hrun; cbn [bind].
  - pose proof (compute_trellis_Ok_fillable _ _ Hrun)
      as (Hne & Hrows & _)%fillable_spec.
    pose proof (compute_trellis_shape _ _ Hrun) as Hshape.
    destruct (compute_best_path triangle trellis) as [[s path]|e] eqn:Hres.
    + left. exists s, path. split; [done|].
      apply compute_best_path_length in Hres. rewrite Hres.
      apply (f_equal length) in Hshape. unfold shape in Hshape.
      by rewrite !length_fmap in Hshape.
    + right. apply compute_best_path_Raise in Hres as [[_ Hlast]| ->]; [|done].
      exfalso. rewrite last_lookup in Hlast.
      destruct (shape_lookup _ _ _ _ Hshape Hlast) as (line & Hline & L).
      apply Hrows in Hline. cbn in L. lia.
  - right. by rewrite (compute_trellis_raises _ _ Hrun).
Qed.

(** ** Prefixes of the returned path *)

(** As [walk_ok], keeping track of the sums of the prefixes of the path. *)
Lemma walk_prefix_sums triangle d (trellis : Trellis) :
  well_formed triangle = true ->
  trellis_ok triangle d trellis ->
  forall (i j : nat) c acc,
    (i < length triangle)%nat -> at2 trellis i j = Some c ->
    exists cols vals st',
      iterate (S i) (walk_body triangle trellis)
        {| curr_i := Z.of_nat i; curr_j := Z.of_nat j; best_path := acc |}
      = Ok st' /\
      best_path st' = acc ++ rev vals /\
      path_to i j cols /\ path_values triangle cols = Some vals /\
      forall (k ck : nat), cols !! k = Some ck ->
        exists c', at2 trellis k ck = Some c' /\
                   sumZ (take (S k) vals) = fst c'.
Proof.
  intros Hwf Hok. induction i as [|i IH]; intros j c acc Hi Hc.
  - destruct (trellis_ok_apex _ _ _ Hok) as (v & Hv & H0).
    assert (Hrow : trellis !! 0%nat = Some [(v, d)]).
    { destruct Hok as (_ & _ & (v' & Hv' & H0') & _). congruence. }
    pose proof Hc as Hc0. unfold at2 in Hc0. rewrite Hrow in Hc0.
    apply list_lookup_singleton_Some in Hc0 as [-> <-].
    exists [0%nat], [v]. eexists. cbn [iterate].
    rewrite (walk_body_at _ _ _ _ _ _ _ Hv Hc). cbn [bind].
    split_and!; try done.
    + constructor.
    + unfold at2 in Hv. destruct triangle as [|row rows]; [done|].
      cbn in *. by rewrite Hv.
    + intros k ck [-> <-]%list_lookup_singleton_Some.
      exists (v, d). split; [done|]. cbn. lia.
  - assert (Hj : (j <= S i)%nat).
    { destruct Hok as (_ & Hrows & _). unfold at2 in Hc.
      destruct (trellis !! S i) as [row|] eqn:E; [|done].
      apply Hrows in E. apply lookup_lt_Some in Hc. lia. }
    destruct (trellis_ok_cell _ _ _ i j Hwf Hok Hi Hj)
      as (v & c' & prev & Hv & Hc' & Hprev & Lprev & Hrel).
    assert (c' = c) as -> by congruence.
    destruct (cell_rel_parent _ _ _ _ _ Lprev Hj Hrel)
      as (j0 & p & Hp & Hsum & Hstep & Hjj & _).
    assert (Hp' : at2 trellis i j0 = Some p) by (unfold at2; by rewrite Hprev).
    destruct (IH j0 p (acc ++ [v]) ltac:(lia) Hp')
      as (cols & vals & st' & Hrun & Hbp & Hpath & Hvals & Hpre).
    destruct (path_to_bounds _ _ _ Hpath) as [_ Lcols].
    destruct (path_values_lookup _ _ _ Hvals) as [Lvals _].
    destruct (path_to_adjacent _ _ _ Hpath) as (_ & Hend & _).
    assert (Hbody := walk_body_at _ _ _ _ acc _ _ Hv Hc).
    rewrite of_nat_pred, Hstep in Hbody.
    exists (cols ++ [j]), (vals ++ [v]), st'.
    split_and!.
    + change (iterate (S (S i)) ?b ?s) with (s' <- b s ;; iterate (S i) b s').
      by rewrite Hbody.
    + rewrite Hbp, rev_app_distr, <- app_assoc. done.
    + by econstructor.
    + by rewrite path_values_snoc, Hvals, Lcols, Hv.
    + intros k ck Hk. apply lookup_app_Some in Hk as [Hk|[Hk1 Hk2]].
      * destruct (Hpre _ _ Hk) as (ck' & Hck' & Hs).
        exists ck'. split; [done|].
        apply lookup_lt_Some in Hk. by rewrite take_app_le by lia.
      * rewrite Lcols in *.
        apply list_lookup_singleton_Some in Hk2 as [Hk2 <-].
        assert (k = S i) as -> by lia.
        exists c. split; [done|].
        rewrite take_ge by (rewrite length_app; cbn; lia).
        destruct (Hpre _ _ Hend) as (p' & Hp'' & Hs).
        assert (p' = p) as -> by congruence.
        rewrite take_ge in Hs by lia.
        rewrite sumZ_app. cbn. lia.
Qed.

(** X6 (optimal substructure): on a well-formed triangle, every prefix of
    the path returned by [compute_best_path] is itself a best path: its sum
    is the sum stored in the trellis cell where the prefix ends, which is
    the largest sum of any route from the apex to that cell. *)
Theorem best_path_prefixes_optimal (triangle : Triangle) :
  well_formed triangle = true ->
  exists trellis s path cols,
    compute_trellis triangle = Ok trellis /\
    compute_best_path triangle trellis = Ok (s, path) /\
    path_values triangle cols = Some path /\
    length cols = length triangle /\
    forall (k ck : nat), cols !! k = Some ck ->
      exists c,
        Py.getitem2 trellis (Z.of_nat k) (Z.of_nat ck) = Ok c /\
        sumZ (take (S k) path) = fst c /\
        is_max_path_sum triangle k ck (sumZ (take (S k) path)).
Proof.
  intros Hwf.
  destruct (compute_trellis_ok _ Hwf) as (trellis & Hrun & Hok).
  destruct (compute_best_path_ok _ _ _ Hwf Hok)
    as (last & j & c & _ & _ & _
        & (Hlast & _ & Hfind & Hc & _) & _ & _).
  pose proof Hok as (Hlen & _).
  assert (Hn : (0 < length triangle)%nat).
  { apply well_formed_spec in Hwf as [Hne _].
    destruct triangle; [done|cbn; lia]. }
  assert (Hat : at2 trellis (length triangle - 1) j = Some c)
    by (unfold at2; by rewrite Hlast).
  destruct (walk_prefix_sums _ _ _ Hwf Hok (length triangle - 1)%nat j c []
              ltac:(lia) Hat)
    as (cols & vals & st & Hiter & Hbp & Hpath & Hvals & Hpre).
  destruct (path_to_bounds _ _ _ Hpath) as [_ Lcols].
  exists trellis, (fst c), vals, cols. split_and!; [done| |done|lia|].
  - unfold compute_best_path. rewrite Hfind. cbn [bind fst snd].
    unfold walk_while. cbn [curr_i].
    replace (Z.to_nat (Z.of_nat (length trellis) - 1 + 1))
      with (S (length triangle - 1)) by lia.
    replace (Z.of_nat (length trellis) - 1)
      with (Z.of_nat (length triangle - 1)) by lia.
    rewrite Hiter. cbn [bind]. rewrite Hbp. cbn [app].
    by rewrite rev_involutive.
  - intros k ck Hk. destruct (Hpre _ _ Hk) as (c' & Hc' & Hs).
    exists c'. split_and!; [by apply getitem2_at2|done|].
    rewrite Hs.
    assert (Hki : (k < length triangle)%nat)
      by (apply lookup_lt_Some in Hk; lia).
    destruct (best_sum_max _ _ _ Hwf Hok k ck c' Hki Hc') as [Hex Hmax].
    split; [done|]. intros cols' Hpath'.
    destruct (path_values_total _ _ _ _ Hwf Hpath' Hki) as [vals' Hvals'].
    exists vals'. split; [done|]. by eapply Hmax.
Qed.

Lemma best_path_prefixes_optimal_witness :
  well_formed [[3]; [7; 4]; [2; 4; 6]; [8; 5; 9; 3]] = true /\
  exists trellis,
    compute_trellis [[3]; [7; 4]; [2; 4; 6]; [8; 5; 9; 3]] = Ok trellis /\
    compute_best_path [[3]; [7; 4]; [2; 4; 6]; [8; 5; 9; 3]] trellis
    = Ok (23, [3; 7; 4; 9]).
Proof.
  split; [reflexivity|].
  destruct (best_path_prefixes_optimal
              [[3]; [7; 4]; [2; 4; 6]; [8; 5; 9; 3]] eq_refl)
    as (trellis & s & path & cols & Hrun & _).
  exists trellis. split; [exact Hrun|].
  vm_compute in Hrun. injection Hrun as <-. reflexivity.
Defined.

(** ** The two edges *)

Lemma edge_sums triangle d (trellis : Trellis) :
  well_formed triangle = true ->
  trellis_ok triangle d trellis ->
  forall i : nat, (i < length triangle)%nat ->
    exists l r vl vr,
      at2 trellis i 0 = Some l /\
      path_values triangle (replicate (S i) 0%nat) = Some vl /\
      fst l = sumZ vl /\
      at2 trellis i i = Some r /\
      path_values triangle (seq 0 (S i)) = Some vr /\
      fst r = sumZ vr.
Proof.
  intros Hwf Hok. induction i as [|i IH]; intros Hi.
  - destruct (trellis_ok_apex _ _ _ Hok) as (v & Hv & H0).
    assert (Hvals : path_values triangle [0%nat] = Some [v]).
    { unfold at2 in Hv. destruct triangle as [|row rows]; [done|].
      cbn in *. by rewrite Hv. }
    exists (v, d), (v, d), [v], [v]. split_and!; try done; cbn; lia.
  - destruct IH as (l & r & vl & vr & Hl & Hvl & Hsl & Hr & Hvr & Hsr); [lia|].
    destruct (trellis_ok_cell _ _ _ i 0 Hwf Hok Hi ltac:(lia))
      as (v0 & c0 & prev & Hv0 & Hc0 & Hprev & Lprev & Hrel0).
    destruct (trellis_ok_cell _ _ _ i (S i) Hwf Hok Hi ltac:(lia))
      as (v1 & c1 & prev' & Hv1 & Hc1 & Hprev' & _ & Hrel1).
    assert (prev' = prev) as -> by congruence.
    unfold cell_rel in Hrel0, Hrel1.
    rewrite decide_True in Hrel0 by done.
    rewrite decide_False in Hrel1 by lia.
    rewrite decide_True in Hrel1 by done.
    destruct Hrel0 as (p0 & Hp0 & ->). destruct Hrel1 as (p1 & Hp1 & ->).
    replace (S i - 1)%nat with i in Hp1 by lia.
    unfold at2 in Hl, Hr. rewrite Hprev in Hl, Hr.
    assert (p0 = l) as -> by congruence.
    assert (p1 = r) as -> by congruence.
    exists (fst l + v0, 0), (fst r + v1, -1), (vl ++ [v0]), (vr ++ [v1]).
    split_and!; try done.
    + change (replicate (S (S i)) 0%nat)
        with (0%nat :: replicate (S i) 0%nat).
      rewrite replicate_cons_app, path_values_snoc, Hvl, length_replicate.
      by rewrite Hv0.
    + rewrite sumZ_app. cbn. lia.
    + rewrite seq_S, path_values_snoc, Hvr, length_seq. cbn [Nat.add].
      by rewrite Hv1.
    + rewrite sumZ_app. cbn. lia.
Qed.

(** X7 (edges): in the trellis built from a well-formed triangle, the cell
    at the left end of row [i] holds the sum of the first entries of rows
    [0..i], and the cell at its right end holds the sum of the last entries
    of rows [0..i]. *)
Theorem edge_cells_hold_edge_sums (triangle : Triangle) :
  well_formed triangle = true ->
  exists trellis,
    compute_trellis triangle = Ok trellis /\
    forall i : nat, (i < length triangle)%nat ->
      exists l r vl vr,
        Py.getitem2 trellis (Z.of_nat i) 0 = Ok l /\
        path_values triangle (replicate (S i) 0%nat) = Some vl /\
        fst l = sumZ vl /\
        Py.getitem2 trellis (Z.of_nat i) (Z.of_nat i) = Ok r /\
        path_values triangle (seq 0 (S i)) = Some vr /\
        fst r = sumZ vr.
Proof.
  intros Hwf.
  destruct (compute_trellis_ok _ Hwf) as (trellis & Hrun & Hok).
  exists trellis. split; [done|]. intros i Hi.
  destruct (edge_sums _ _ _ Hwf Hok i Hi)
    as (l & r & vl & vr & Hl & Hvl & Hsl & Hr & Hvr & Hsr).
  exists l, r, vl, vr. split_and!; try done.
  - by apply (getitem2_at2 _ i 0).
  - by apply getitem2_at2.
Qed.

Lemma edge_cells_hold_edge_sums_witness :
  well_formed [[3]; [7; 4]; [2; 4; 6]] = true /\
  exists trellis,
    compute_trellis [[3]; [7; 4]; [2; 4; 6]] = Ok trellis /\
    Py.getitem2 trellis 2 0 = Ok (12, 0) /\
    Py.getitem2 trellis 2 2 = Ok (13, -1).
Proof.
  split; [reflexivity|].
  destruct (edge_cells_hold_edge_sums [[3]; [7; 4]; [2; 4; 6]] eq_refl)
    as (trellis & Hrun & _).
  exists trellis. split; [exact Hrun|].
  vm_compute in Hrun. injection Hrun as <-. split; reflexivity.
Defined.

(** ** Reading the triangle from the lines of a file *)

Lemma map_result_Ok {A B : Type} (f : A -> result B) (g : A -> B) l :
  (forall x, x ∈ l -> f x = Ok (g x)) ->
  map_result f l = Ok (map g l).
Proof.
  induction l as [|x l IH]; intros H; cbn [map_result map]; [done|].
  rewrite (H x) by apply list_elem_of_here. cbn [bind].
  rewrite IH; [done|]. intros y Hy. apply H. by apply list_elem_of_further.
Qed.

Lemma map_result_Raise {A B : Type} (f : A -> result B) (g : A -> B)
    before x after e :
  (forall y, y ∈ before -> f y = Ok (g y)) ->
  f x = Raise e ->
  map_result f (before ++ x :: after) = Raise e.
Proof.
  intros Hbefore Hx.
  induction before as [|y before IH]; cbn [app map_result].
  - by rewrite Hx.
  - rewrite (Hbefore y) by apply list_elem_of_here. cbn [bind].
    rewrite IH; [done|]. intros z Hz. apply Hbefore.
    by apply list_elem_of_further.
Qed.

Section SplitFacts.
Context {char : Type} (isspace : char -> bool).

Lemma split_from_lstrip (s : list char) :
  PyStr.split_from isspace [] (PyStr.lstrip isspace s)
  = PyStr.split_from isspace [] s.
Proof.
  induction s as [|c s IH]; cbn [PyStr.lstrip]; [done|].
  destruct (isspace c) eqn:E; [|done].
  cbn [PyStr.split_from]. by rewrite E.
Qed.

Lemma split_from_spaces word (ws : list char) :
  forallb isspace ws = true ->
  PyStr.split_from isspace word ws = PyStr.split_from isspace word [].
Proof.
  revert word. induction ws as [|c ws IH]; intros word; [done|].
  cbn [forallb]. intros [Hc Hws]%andb_true_iff.
  cbn [PyStr.split_from]. rewrite Hc.
  destruct word; by rewrite (IH [] Hws).
Qed.

Lemma split_from_app_spaces word (s ws : list char) :
  forallb isspace ws = true ->
  PyStr.split_from isspace word (s ++ ws)
  = PyStr.split_from isspace word s.
Proof.
  intros Hws. revert word.
  induction s as [|c s IH]; intros word; cbn [app].
  - by apply split_from_spaces.
  - cbn [PyStr.split_from]. destruct (isspace c); [|by rewrite IH].
    destruct word; by rewrite IH.
Qed.

Lemma lstrip_decompose (s : list char) :
  exists ws, s = ws ++ PyStr.lstrip isspace s /\ forallb isspace ws = true.
Proof.
  induction s as [|c s (ws & Hs & Hws)]; cbn [PyStr.lstrip].
  - by exists [].
  - destruct (isspace c) eqn:E; [|by exists []].
    exists (c :: ws). cbn [app forallb]. rewrite E, Hws. split; [|done].
    by rewrite <- Hs.
Qed.

Lemma forallb_rev (ws : list char) :
  forallb isspace ws = true -> forallb isspace (rev ws) = true.
Proof.
  rewrite !forallb_forall. intros H x Hx. apply H. by apply in_rev.
Qed.

(** Stripping a line does not change its tokens. *)
Lemma split_strip (s : list char) :
  PyStr.split isspace (PyStr.strip isspace s) = PyStr.split isspace s.
Proof.
  unfold PyStr.split, PyStr.strip.
  destruct (lstrip_decompose (rev (PyStr.lstrip isspace s)))
    as (ws & Hs & Hws).
  apply (f_equal (@rev char)) in Hs.
  rewrite rev_involutive, rev_app_distr in Hs.
  rewrite <- (split_from_lstrip s). rewrite Hs at 2.
  by rewrite split_from_app_spaces by by apply forallb_rev.
Qed.

(** A line of whitespace only has no token. *)
Lemma split_blank (s : list char) :
  forallb isspace s = true -> PyStr.split isspace s = [].
Proof. intros H. unfold PyStr.split. by rewrite split_from_spaces. Qed.

End SplitFacts.

Lemma main_Ok_fillable (triangle : Triangle) r :
  main triangle = Ok r -> fillable triangle = true.
Proof.
  unfold main. intros (trellis & Hrun & _)%bind_Ok.
  by eapply compute_trellis_Ok_fillable.
Qed.

Lemma main_Raise (triangle : Triangle) e :
  main triangle = Raise e -> e = IndexError.
Proof.
  unfold main.
  destruct (compute_trellis triangle) as [trellis|e'] eqn:Hrun; cbn [bind].
  - intros [[_ Hlast]| ->]%compute_best_path_Raise; [|done]. exfalso.
    pose proof (compute_trellis_Ok_fillable _ _ Hrun)
      as (_ & Hrows & _)%fillable_spec.
    pose proof (compute_trellis_shape _ _ Hrun) as Hshape.
    rewrite last_lookup in Hlast.
    destruct (shape_lookup _ _ _ _ Hshape Hlast) as (line & Hline & L).
    apply Hrows in Hline. cbn in L. lia.
  - intros [= <-]. by apply (compute_trellis_raises _ _ Hrun).
Qed.

Section ReaderFacts.
Context {char : Type}.
Variable isspace : char -> bool.
Variable py_int : list char -> result Z.
Variable val : list char -> Z.

Lemma read_line_Ok (line : list char) :
  (forall tok, tok ∈ PyStr.split isspace line -> py_int tok = Ok (val tok)) ->
  map_result py_int (PyStr.split isspace (PyStr.strip isspace line))
  = Ok (map val (PyStr.split isspace line)).
Proof. intros H. rewrite split_strip. by apply map_result_Ok. Qed.

Lemma read_triangle_Ok (lines : list (list char)) :
  (forall line tok,
      line ∈ lines -> tok ∈ PyStr.split isspace line ->
      py_int tok = Ok (val tok)) ->
  read_triangle isspace py_int lines
  = Ok (map (fun line => map val (PyStr.split isspace line)) lines).
Proof.
  intros H. unfold read_triangle.
  apply (map_result_Ok _ (fun line => map val (PyStr.split isspace line))).
  intros line Hline. apply read_line_Ok. intros tok. by apply H.
Qed.

(** X8 (reading): when [int] accepts every whitespace-separated token of
    every line, [read_triangle] returns one row per line, row [i] holding
    the values of the tokens of line [i] in order, whatever whitespace
    surrounds or separates them; and the program's result is that of the
    builder and the reconstruction on these rows. *)
Theorem read_triangle_rows (lines : list (list char)) :
  (forall line tok,
      line ∈ lines -> tok ∈ PyStr.split isspace line ->
      py_int tok = Ok (val tok)) ->
  exists triangle,
    read_triangle isspace py_int lines = Ok triangle /\
    length triangle = length lines /\
    (forall (i : nat) line,
        lines !! i = Some line ->
        triangle !! i = Some (map val (PyStr.split isspace line))) /\
    main_lines isspace py_int lines = main triangle.
Proof.
  intros H. eexists. split_and!.
  - by apply read_triangle_Ok.
  - by rewrite length_map.
  - intros i line Hline. by rewrite lookup_map, Hline.
  - unfold main_lines. by rewrite (read_triangle_Ok _ H).
Qed.

(** X9 (a token that is not a number): when [int] raises on some token and
    has accepted every token of the lines before it and every token before
    it on its line, [read_triangle] raises that exception, and so does the
    program. *)
Theorem read_triangle_first_error
    (before after : list (list char)) line toks tok rest e :
  (forall l t,
      l ∈ before -> t ∈ PyStr.split isspace l -> py_int t = Ok (val t)) ->
  PyStr.split isspace line = toks ++ tok :: rest ->
  (forall t, t ∈ toks -> py_int t = Ok (val t)) ->
  py_int tok = Raise e ->
  read_triangle isspace py_int (before ++ line :: after) = Raise e /\
  main_lines isspace py_int (before ++ line :: after) = Raise e.
Proof.
  intros Hbefore Hsplit Htoks Htok.
  assert (Hread : read_triangle isspace py_int (before ++ line :: after)
                  = Raise e).
  { unfold read_triangle.
    apply (map_result_Raise _
             (fun line => map val (PyStr.split isspace line))).
    - intros l Hl. apply read_line_Ok. intros t. by apply Hbefore.
    - rewrite split_strip, Hsplit. by eapply map_result_Raise. }
  split; [done|]. unfold main_lines. by rewrite Hread.
Qed.

(** X10 (empty file, blank line): when [int] accepts every token, and the
    file has no line at all or has a line with nothing but whitespace (such
    as an empty last line), the program raises [IndexError]: the blank line
    is read as an empty row. *)
Theorem blank_line_raises_IndexError (lines : list (list char)) :
  (forall line tok,
      line ∈ lines -> tok ∈ PyStr.split isspace line ->
      py_int tok = Ok (val tok)) ->
  lines = [] \/
  (exists line, line ∈ lines /\ forallb isspace line = true) ->
  main_lines isspace py_int lines = Raise IndexError.
Proof.
  intros H Hblank. unfold main_lines.
  rewrite (read_triangle_Ok _ H). cbn [bind].
  set (triangle := map _ lines).
  change (main triangle = Raise IndexError).
  destruct (main triangle) as [r|e] eqn:Hmain.
  - exfalso.
    apply main_Ok_fillable in Hmain as (Hne & Hrows & _)%fillable_spec.
    destruct Hblank as [->|(line & Hline & Hws)]; [done|].
    apply list_elem_of_lookup in Hline as [i Hi].
    assert (Hrow : triangle !! i = Some []).
    { unfold triangle. rewrite lookup_map, Hi. cbn.
      by rewrite split_blank. }
    apply Hrows in Hrow. cbn in Hrow. lia.
  - by rewrite (main_Raise _ _ Hmain).
Qed.

End ReaderFacts.

Local Ltac in_lines H :=
  repeat (apply elem_of_cons in H as [->|H]);
  try (by apply elem_of_nil in H).

Lemma read_triangle_rows_witness :
  (forall line tok,
      line ∈ [text_line "   3"; text_line "  07 4  "] ->
      tok ∈ PyStr.split ascii_space line ->
      decimal_int tok = Ok (decimal_value tok)) /\
  main_lines ascii_space decimal_int [text_line "   3"; text_line "  07 4  "]
  = Ok (10, [3; 7]).
Proof.
  assert (H : forall line tok,
             line ∈ [text_line "   3"; text_line "  07 4  "] ->
             tok ∈ PyStr.split ascii_space line ->
             decimal_int tok = Ok (decimal_value tok)).
  { intros line tok Hl Ht. in_lines Hl; vm_compute in Ht; in_lines Ht;
      reflexivity. }
  split; [exact H|].
  destruct (read_triangle_rows ascii_space decimal_int decimal_value _ H)
    as (triangle & Hread & _ & _ & ->).
  vm_compute in Hread. injection Hread as <-. reflexivity.
Defined.

Lemma read_triangle_first_error_witness :
  PyStr.split ascii_space (text_line "7 x")
  = [list_ascii_of_string "7"] ++ list_ascii_of_string "x" :: [] /\
  decimal_int (list_ascii_of_string "x") = Raise ValueError /\
  main_lines ascii_space decimal_int
    ([text_line "3"] ++ text_line "7 x" :: [text_line "1 2 3"])
  = Raise ValueError.
Proof.
  split; [reflexivity|]. split; [reflexivity|].
  apply (read_triangle_first_error ascii_space decimal_int decimal_value
           [text_line "3"] [text_line "1 2 3"] (text_line "7 x")
           [list_ascii_of_string "7"] (list_ascii_of_string "x") []
           ValueError).
  - intros l t Hl Ht. in_lines Hl; vm_compute in Ht; in_lines Ht; reflexivity.
  - reflexivity.
  - intros t Ht. in_lines Ht; reflexivity.
  - reflexivity.
Defined.

Lemma blank_line_raises_IndexError_witness :
  text_line "" ∈ [text_line "3"; text_line "7 4"; text_line ""] /\
  forallb ascii_space (text_line "") = true /\
  main_lines ascii_space decimal_int
    [text_line "3"; text_line "7 4"; text_line ""]
  = Raise IndexError.
Proof.
  split; [by do 2 apply list_elem_of_further; apply list_elem_of_here|].
  split; [reflexivity|].
  apply (blank_line_raises_IndexError ascii_space decimal_int decimal_value).
  - intros line tok Hl Ht. in_lines Hl; vm_compute in Ht; in_lines Ht;
      reflexivity.
  - right. exists (text_line ""). split; [|reflexivity].
    do 2 apply list_elem_of_further. apply list_elem_of_here.
Defined.

(** ** The trellis is built row by row *)

Lemma cell_rel_fun (prev : list cell) (i j : nat) v c c' :
  cell_rel prev i j v c -> cell_rel prev i j v c' -> c = c'.
Proof.
  unfold cell_rel.
  destruct (decide (j = 0%nat)); [|destruct (decide (j = i))].
  - intros (p & Hp & ->) (p' & Hp' & ->). congruence.
  - intros (p & Hp & ->) (p' & Hp' & ->). congruence.
  - intros (l & r & Hl & Hr & ->) (l' & r' & Hl' & Hr' & ->). congruence.
Qed.

(** The cell relation determines the trellis. *)
Lemma trellis_ok_unique triangle d (t t' : Trellis) :
  well_formed triangle = true ->
  trellis_ok triangle d t -> trellis_ok triangle d t' -> t = t'.
Proof.
  intros [_ Hwf]%well_formed_spec
    (Hlen & Hrows & (v & Hv & H0) & Hcells)
    (Hlen' & Hrows' & (v' & Hv' & H0') & Hcells').
  assert (v' = v) as -> by congruence.
  apply list_eq. intros i.
  destruct (Nat.lt_ge_cases i (length triangle)) as [Hi|Hi];
    [|by rewrite !lookup_ge_None_2 by lia].
  induction i as [|i IH]; [congruence|].
  specialize (IH ltac:(lia)).
  destruct (lookup_lt_ex t i) as [prev Hprev]; [lia|].
  destruct (lookup_lt_ex t (S i)) as [row Hrow]; [lia|].
  destruct (lookup_lt_ex t' (S i)) as [row' Hrow']; [lia|].
  destruct (lookup_lt_ex triangle (S i)) as [line Hline]; [lia|].
  rewrite Hprev in IH. symmetry in IH.
  rewrite Hrow, Hrow'. f_equal. apply list_eq. intros j.
  pose proof (Hrows _ _ Hrow) as L. pose proof (Hrows' _ _ Hrow') as L'.
  pose proof (Hwf _ _ Hline) as Lline.
  destruct (Nat.lt_ge_cases j (S (S i))) as [Hj|Hj];
    [|by rewrite !lookup_ge_None_2 by lia].
  destruct (lookup_lt_ex row j) as [c Hc]; [lia|].
  destruct (lookup_lt_ex row' j) as [c' Hc']; [lia|].
  destruct (lookup_lt_ex line j) as [w Hw]; [lia|].
  rewrite Hc, Hc'. f_equal.
  eapply cell_rel_fun.
  - by eapply (Hcells i prev row line).
  - by eapply (Hcells' i prev row' line).
Qed.

Lemma well_formed_take (k : nat) (triangle : Triangle) :
  (1 <= k)%nat -> well_formed triangle = true ->
  well_formed (take k triangle) = true.
Proof.
  intros Hk [Hne Hwf]%well_formed_spec. apply well_formed_spec. split.
  - destruct triangle; [done|]. by destruct k; [lia|].
  - intros i row [Hrow _]%lookup_take_Some. by apply Hwf.
Qed.

Lemma trellis_ok_take (k : nat) triangle d (trellis : Trellis) :
  (1 <= k)%nat ->
  trellis_ok triangle d trellis ->
  trellis_ok (take k triangle) d (take k trellis).
Proof.
  intros Hk (Hlen & Hrows & (v & Hv & H0) & Hcells). split_and!.
  - rewrite !length_take. lia.
  - intros i row [Hrow _]%lookup_take_Some. by eapply Hrows.
  - exists v. split.
    + unfold at2 in *. by rewrite lookup_take_lt by lia.
    + by rewrite lookup_take_lt by lia.
  - intros i prev row line Hi [Hprev _]%lookup_take_Some
      [Hrow _]%lookup_take_Some [Hline _]%lookup_take_Some.
    eapply Hcells; try done. rewrite length_take in Hi. lia.
Qed.

(** X11 (rows do not depend on later rows): on a well-formed triangle, the
    trellis built from the first [k] rows alone is the first [k] rows of
    the trellis built from the whole triangle. *)
Theorem trellis_of_prefix (triangle : Triangle) (k : nat) :
  well_formed triangle = true -> (1 <= k)%nat ->
  exists trellis,
    compute_trellis triangle = Ok trellis /\
    compute_trellis (take k triangle) = Ok (take k trellis).
Proof.
  intros Hwf Hk.
  destruct (compute_trellis_ok _ Hwf) as (trellis & Hrun & Hok).
  exists trellis. split; [done|].
  pose proof (well_formed_take k _ Hk Hwf) as Hwfk.
  destruct (compute_trellis_ok _ Hwfk) as (tk & Hrunk & Hokk).
  rewrite Hrunk. f_equal.
  eapply trellis_ok_unique; [done..|]. by apply trellis_ok_take.
Qed.

Lemma trellis_of_prefix_witness :
  well_formed [[3]; [7; 4]; [2; 4; 6]] = true /\ (1 <= 2)%nat /\
  exists trellis,
    compute_trellis [[3]; [7; 4]; [2; 4; 6]] = Ok trellis /\
    compute_trellis (take 2 [[3]; [7; 4]; [2; 4; 6]]) = Ok (take 2 trellis).
Proof.
  split; [reflexivity|]. split; [lia|].
  apply trellis_of_prefix; [reflexivity|lia].
Defined.

(** ** Adding a constant to every entry of the triangle *)











Section MaxShift.
Context {A B : Type} (f : A -> Z) (f' : B -> Z) (g : A -> B) (delta : Z).
Hypothesis Hkey : forall x, f' (g x) = f x + delta.


End MaxShift.





